(** * blog_backend: the authentication and authorization core

    A shallow embedding of [src/services/auth.service.ts] (the class
    [AuthService] and its zod schemas) and of
    [src/middleware/auth.middleware.ts] (the access gate), with the
    properties the specification states about them.

    The packages the service calls are not part of the repository; each is
    represented by an interface (a type class) whose members stand for the
    package's functions:
    - zod's string formats ([Validators]),
    - bcryptjs ([Bcrypt]),
    - the compact serialisation and the MAC of jsonwebtoken ([Jws]),
    - the process configuration and the Prisma schema ([Config]).
    The service code itself is translated line by line. *)

From Stdlib Require Import Ascii String.
From stdpp Require Import base strings list gmap pretty.

Local Open Scope string_scope.
Local Open Scope Z_scope.

(** ** JavaScript values and objects *)

(** The values a request body, a record of the store or a returned object
    can hold.  [JOther] stands for every value that is neither [undefined],
    [null], a boolean, a string nor a [Date] (numbers, arrays, nested
    objects): no schema of the service looks inside one. *)
Inductive JsVal : Type :=
  | JUndefined
  | JNull
  | JBool (b : bool)
  | JStr (s : string)
  | JDate (ms : Z)
  | JOther.

(** A plain object: a finite map from property names to values. *)
Abbreviation JsObject := (gmap string JsVal).

(** [o[k]]: reading a property that is absent yields [undefined]. *)
Definition prop (o : JsObject) (k : string) : JsVal :=
  default JUndefined (o !! k).

Definition nullable (v : option string) : JsVal :=
  match v with Some s => JStr s | None => JNull end.

Definition nullable_date (v : option Z) : JsVal :=
  match v with Some t => JDate t | None => JNull end.

(** ** Errors *)

(** One issue of a [ZodError]: the offending field and what failed. *)
Inductive ZodIssue : Type :=
  | invalid_type (path : string)
  | check_failed (path : string) (message : string)
  | invalid_union (path : string).

(** What an operation of the service can throw: the service's own
    [AuthError (message, code, field)], zod's [ZodError], or an error of the
    Prisma client (an infrastructure failure, identified by its code). *)
Inductive Failure : Type :=
  | AuthError (message : string) (code : string) (field : option string)
  | ZodError (issues : list ZodIssue)
  | PrismaError (code : string).


(** ** Identity tokens *)

Module Payload.
(** [AuthTokenPayload] *)
Record t : Type := mk { userId : string; email : string; role : string }.
End Payload.

(** The decoded content of a token: the payload given to [jwt.sign] and the
    registered claims the package adds or checks.  [aud] lists the audiences
    (a single string is a one-element list, an absent claim the empty
    list). *)
Record Claims : Type := mkClaims {
  payload : Payload.t;
  iat : option Z;
  nbf : option Z;
  exp : option Z;
  iss : option string;
  aud : list string
}.

(** The compact serialisation of jsonwebtoken with an ideal MAC.
    [jws_open s = Some (c, k)] when [s] is a well-formed signed token with
    content [c] whose signature is the MAC under key [k];
    [jws_open s = None] when [s] is malformed. *)
Class Jws : Type := {
  jws_sign : Claims -> string -> string;
  jws_open : string -> option (Claims * string)
}.

(** zod's [email()] and [url()] string formats. *)
Class Validators : Type := {
  is_email : string -> bool;
  is_url : string -> bool
}.

(** bcryptjs: [hash (password, rounds)] draws a salt, here an argument. *)
Class Bcrypt : Type := {
  bcrypt_hash : string -> nat -> string -> string;
  bcrypt_compare : string -> string -> bool
}.

(** The configuration read at start-up, and the one attribute of the Prisma
    schema (which is not among the sources) that the service's writes depend
    on: whether the [updatedAt] column is declared [@updatedAt], in which
    case the client fills it on every update that does not supply it. *)
Class Config : Type := {
  JWT_SECRET : string;
  JWT_EXPIRES_IN : Z;          (* the lifetime, in seconds *)
  schema_updatedAt : bool
}.

Inductive JwtError : Type :=
  | JsonWebTokenError (message : string)
  | NotBeforeError
  | TokenExpiredError.

Record VerifyOptions : Type := {
  issuer : option string;
  audience : option string
}.

Section Token.
Context `{Jws}.

(** [Math.floor (Date.now () / 1000)] *)
Definition clockTimestamp (now : Z) : Z := now / 1000.

(** What [jwt.sign (payload, secret, { expiresIn })] serialises: the
    payload with [iat] and [exp]; no other option is given, so no other
    claim is set. *)
Definition signed_content (p : Payload.t) (expiresIn : Z) (now : Z) : Claims :=
  let timestamp := clockTimestamp now in
  {| payload := p;
     iat := Some timestamp;
     nbf := None;
     exp := Some (timestamp + expiresIn);
     iss := None;
     aud := [] |}.

Definition jwt_sign (p : Payload.t) (secret : string) (expiresIn : Z)
    (now : Z) : string :=
  jws_sign (signed_content p expiresIn now) secret.

Definition audience_matches (expected : string) (c : Claims) : bool :=
  existsb (String.eqb expected) (aud c).

Definition issuer_matches (expected : string) (c : Claims) : bool :=
  match iss c with
  | Some i => String.eqb i expected
  | None => false
  end.

(** [jwt.verify (token, secret, options)]: the checks in the order the
    package makes them. *)
Definition jwt_verify (token secret : string) (o : VerifyOptions)
    (now : Z) : JwtError + Claims :=
  match jws_open token with
  | None => inl (JsonWebTokenError "jwt malformed")
  | Some (c, k) =>
    if negb (String.eqb k secret) then
      inl (JsonWebTokenError "invalid signature")
    else if match nbf c with Some t => clockTimestamp now <? t | None => false end then
      inl NotBeforeError
    else if match exp c with Some t => t <=? clockTimestamp now | None => false end then
      inl TokenExpiredError
    else if match audience o with Some a => negb (audience_matches a c) | None => false end then
      inl (JsonWebTokenError "jwt audience invalid")
    else if match issuer o with Some i => negb (issuer_matches i c) | None => false end then
      inl (JsonWebTokenError "jwt issuer invalid")
    else inr c
  end.

Context `{Config}.

(** [AuthService.generateToken] *)
Definition generateToken (p : Payload.t) (now : Z) : string :=
  jwt_sign p JWT_SECRET JWT_EXPIRES_IN now.

(** [AuthService.verifyToken]: whatever [jwt.verify] throws is caught and
    replaced by one [AuthError]. *)
Definition verifyToken (token : string) (now : Z) : Failure + Claims :=
  match jwt_verify token JWT_SECRET
          {| issuer := Some "blog-backend"; audience := Some "blog-frontend" |} now with
  | inr c => inr c
  | inl _ => inl (AuthError "Token无效或已过期" "INVALID_TOKEN" None)
  end.

(** The checks of the Session Token Authority, as the specification lists
    them: a well-formed token signed with the secret, inside its validity
    window, with the expected issuer and audience. *)
Definition all_checks_pass (token : string) (now : Z) (c : Claims) : Prop :=
  jws_open token = Some (c, JWT_SECRET) /\
  (forall t, nbf c = Some t -> t <= clockTimestamp now) /\
  (forall t, exp c = Some t -> clockTimestamp now < t) /\
  In "blog-frontend" (aud c) /\
  iss c = Some "blog-backend".

Definition INVALID_TOKEN : Failure :=
  AuthError "Token无效或已过期" "INVALID_TOKEN" None.
End Token.

(** ** The access gate ([auth.middleware.ts]) *)

Module Identity.
(** [req.user], the identity attached to a call *)
Record t : Type := mk { userId : string; email : string; role : string }.
End Identity.

Record Request : Type := mkRequest {
  authorization : option string;     (* [req.headers.authorization] *)
  user : option Identity.t           (* [req.user] *)
}.

(** What a middleware does with a call: hand it on ([next ()]), or answer it
    with [res.status (status).json ({ success: false, error: { code, message } })]. *)
Inductive Handled : Type :=
  | next (req : Request)
  | respond (status : Z) (code : string) (message : string).

(** [s.slice (n)] *)
Fixpoint slice (n : nat) (s : string) : string :=
  match n, s with
  | O, _ => s
  | S n', String _ s' => slice n' s'
  | S _, EmptyString => EmptyString
  end.

(** [authHeader && authHeader.startsWith ('Bearer ') ? authHeader.slice (7) : null] *)
Definition bearerToken (authHeader : option string) : option string :=
  match authHeader with
  | Some h =>
    if negb (String.eqb h "") && String.prefix "Bearer " h then Some (slice 7 h) else None
  | None => None
  end.

(** [!token] *)
Definition no_token (token : option string) : bool :=
  match token with
  | Some t => String.eqb t ""
  | None => true
  end.

Section Gate.
Context `{Jws} `{Config}.

Definition attach (req : Request) (c : Claims) : Request :=
  {| authorization := authorization req;
     user := Some {| Identity.userId := Payload.userId (payload c);
                     Identity.email := Payload.email (payload c);
                     Identity.role := Payload.role (payload c) |} |}.

(** [authenticateToken]: the mandatory mode.  An [AuthError] thrown by
    [verifyToken] is answered with its own code and message, anything else
    with [SERVER_ERROR]. *)
Definition authenticateToken (req : Request) (now : Z) : Handled :=
  let token := bearerToken (authorization req) in
  if no_token token then respond 401 "NO_TOKEN" "请提供认证token"
  else
    match verifyToken (default "" token) now with
    | inr c => next (attach req c)
    | inl (AuthError message code _) => respond 401 code message
    | inl _ => respond 500 "SERVER_ERROR" "服务器内部错误"
    end.

(** [optionalAuth]: a token that does not verify is ignored. *)
Definition optionalAuth (req : Request) (now : Z) : Handled :=
  let token := bearerToken (authorization req) in
  if no_token token then next req
  else
    match verifyToken (default "" token) now with
    | inr c => next (attach req c)
    | inl _ => next req
    end.
End Gate.

(** [requireRole (roles)] *)
Definition requireRole (roles : list string) (req : Request) : Handled :=
  match user req with
  | None => respond 401 "NOT_AUTHENTICATED" "请先登录"
  | Some u =>
    if negb (existsb (String.eqb (Identity.role u)) roles) then
      respond 403 "INSUFFICIENT_PERMISSIONS" "权限不足"
    else next req
  end.

(** No bearer credential: no [Authorization] header, one that does not
    start with ["Bearer "], or one with nothing after it. *)
Definition no_bearer_credential (authHeader : option string) : Prop :=
  match authHeader with
  | None => True
  | Some h => String.prefix "Bearer " h = false \/ h = "Bearer "
  end.

Definition requireAdmin : Request -> Handled := requireRole ["ADMIN"].
Definition requireEditor : Request -> Handled := requireRole ["EDITOR"; "ADMIN"].

(** ** Input validation (the zod schemas) *)

(** A string is the sequence of its code units, so that [String.length] is
    the [length] zod compares. *)

(** A check of a string schema: its test and the message of its issue. *)
Record StrCheck : Type := check { test : string -> bool; message : string }.

Definition str_min (n : nat) : string -> bool := fun s => (n <=? String.length s)%nat.
Definition str_max (n : nat) : string -> bool := fun s => (String.length s <=? n)%nat.

Fixpoint all_chars (p : ascii -> bool) (s : string) : bool :=
  match s with
  | EmptyString => true
  | String a s' => p a && all_chars p s'
  end.

(** The class [[a-zA-Z0-9_]] *)
Definition word_char (a : ascii) : bool :=
  let n := nat_of_ascii a in
  ((97 <=? n) && (n <=? 122) || (65 <=? n) && (n <=? 90) ||
   (48 <=? n) && (n <=? 57) || (n =? 95))%nat.

(** [/^[a-zA-Z0-9_]+$/] *)
Definition word_regex (s : string) : bool :=
  negb (String.eqb s "") && all_chars word_char s.

(** Every check of a string schema is run; each failure adds its issue. *)
Definition run_checks (path : string) (checks : list StrCheck) (s : string)
    : list ZodIssue :=
  flat_map (fun c => if test c s then [] else [check_failed path (message c)]) checks.

(** [z.string ()] with its checks *)
Definition z_string (checks : list StrCheck) (path : string) (v : JsVal)
    : list ZodIssue + string :=
  match v with
  | JStr s =>
    match run_checks path checks s with
    | [] => inr s
    | issues => inl issues
    end
  | _ => inl [invalid_type path]
  end.

(** [z.boolean ()] *)
Definition z_boolean (path : string) (v : JsVal) : list ZodIssue + bool :=
  match v with
  | JBool b => inr b
  | _ => inl [invalid_type path]
  end.

(** [schema.refine (test, message)] *)
Definition z_refine {A : Type} (schema : string -> JsVal -> list ZodIssue + A)
    (ok : A -> bool) (msg : string) (path : string) (v : JsVal)
    : list ZodIssue + A :=
  match schema path v with
  | inr a => if ok a then inr a else inl [check_failed path msg]
  | inl issues => inl issues
  end.

(** [schema.optional ()] *)
Definition z_optional {A : Type} (schema : string -> JsVal -> list ZodIssue + A)
    (path : string) (v : JsVal) : list ZodIssue + option A :=
  match v with
  | JUndefined => inr None
  | _ =>
    match schema path v with
    | inr a => inr (Some a)
    | inl issues => inl issues
    end
  end.

(** [z.literal ('')] *)
Definition z_literal_empty (path : string) (v : JsVal) : list ZodIssue + option string :=
  match v with
  | JStr "" => inr (Some "")
  | _ => inl [invalid_type path]
  end.

(** [a.or (b)]: the first alternative that accepts the value decides. *)
Definition z_or {A : Type} (a b : string -> JsVal -> list ZodIssue + A)
    (path : string) (v : JsVal) : list ZodIssue + A :=
  match a path v with
  | inr x => inr x
  | inl _ =>
    match b path v with
    | inr x => inr x
    | inl _ => inl [invalid_union path]
    end
  end.

Definition issues_of {A : Type} (r : list ZodIssue + A) : list ZodIssue :=
  match r with inl l => l | inr _ => [] end.

Module RegisterData.
Record t : Type := mk {
  email : string; username : string; displayName : string;
  password : string; agreeToTerms : bool }.
End RegisterData.

Module LoginData.
Record t : Type := mk { email : string; password : string; rememberMe : option bool }.
End LoginData.

Module UpdateProfileData.
(** [None]: the key is absent from the parsed object, or [undefined] *)
Record t : Type := mk {
  displayName : option string; bio : option string; avatar : option string }.
End UpdateProfileData.

Module ChangePasswordData.
Record t : Type := mk { oldPassword : string; newPassword : string }.
End ChangePasswordData.

Section Schemas.
Context `{Validators}.

(** An object schema parses the keys of its shape, in order, gathers the
    issues of all of them, and drops every other key of the input. *)
Definition registerSchema (data : JsObject) : list ZodIssue + RegisterData.t :=
  let email := z_string [check is_email "请输入有效的邮箱地址"] "email" (prop data "email") in
  let username :=
    z_string [check (str_min 3) "用户名至少需要3个字符";
              check (str_max 20) "用户名不能超过20个字符";
              check word_regex "用户名只能包含字母、数字和下划线"]
             "username" (prop data "username") in
  let displayName :=
    z_string [check (str_min 2) "显示名称至少需要2个字符";
              check (str_max 50) "显示名称不能超过50个字符"]
             "displayName" (prop data "displayName") in
  let password :=
    z_string [check (str_min 6) "密码至少需要6个字符";
              check (str_max 100) "密码不能超过100个字符"]
             "password" (prop data "password") in
  let agreeToTerms :=
    z_refine z_boolean (fun val => Bool.eqb val true) "请同意用户协议"
           "agreeToTerms" (prop data "agreeToTerms") in
  match email, username, displayName, password, agreeToTerms with
  | inr e, inr u, inr d, inr p, inr a =>
    inr (RegisterData.mk e u d p a)
  | _, _, _, _, _ =>
    inl (issues_of email ++ issues_of username ++ issues_of displayName ++
         issues_of password ++ issues_of agreeToTerms)%list
  end.

Definition loginSchema (data : JsObject) : list ZodIssue + LoginData.t :=
  let email := z_string [check is_email "请输入有效的邮箱地址"] "email" (prop data "email") in
  let password := z_string [check (str_min 1) "请输入密码"] "password" (prop data "password") in
  let rememberMe := z_optional z_boolean "rememberMe" (prop data "rememberMe") in
  match email, password, rememberMe with
  | inr e, inr p, inr r => inr (LoginData.mk e p r)
  | _, _, _ => inl (issues_of email ++ issues_of password ++ issues_of rememberMe)%list
  end.

Definition updateProfileSchema (data : JsObject) : list ZodIssue + UpdateProfileData.t :=
  let displayName :=
    z_optional (z_string [check (str_min 2) "显示名称至少需要2个字符";
                        check (str_max 50) "显示名称不能超过50个字符"])
             "displayName" (prop data "displayName") in
  let bio :=
    z_optional (z_string [check (str_max 500) "个人简介不能超过500个字符"])
             "bio" (prop data "bio") in
  let avatar :=
    z_or (z_optional (z_string [check is_url "请输入有效的头像URL"])) z_literal_empty
       "avatar" (prop data "avatar") in
  match displayName, bio, avatar with
  | inr d, inr b, inr a => inr (UpdateProfileData.mk d b a)
  | _, _, _ => inl (issues_of displayName ++ issues_of bio ++ issues_of avatar)%list
  end.

Definition changePasswordSchema (data : JsObject)
    : list ZodIssue + ChangePasswordData.t :=
  let oldPassword :=
    z_string [check (str_min 1) "请输入当前密码"] "oldPassword" (prop data "oldPassword") in
  let newPassword :=
    z_string [check (str_min 6) "新密码至少需要6个字符";
              check (str_max 100) "新密码不能超过100个字符"]
             "newPassword" (prop data "newPassword") in
  match oldPassword, newPassword with
  | inr o, inr n => inr (ChangePasswordData.mk o n)
  | _, _ => inl (issues_of oldPassword ++ issues_of newPassword)%list
  end.
End Schemas.

(** ** The store (the Prisma client on the [User] model) *)

Module User.
(** A row of the [User] model, with the columns the sources use. *)
Record t : Type := mk {
  id : string;
  email : string;
  username : string;
  displayName : string;
  passwordHash : string;
  role : string;
  bio : option string;
  avatar : option string;
  isEmailVerified : bool;
  lastLoginAt : option Z;
  createdAt : Z;
  updatedAt : Z
}.

(** The row as the object the client returns. *)
Definition object (u : t) : JsObject :=
  list_to_map
    [("id", JStr (id u)); ("email", JStr (email u));
     ("username", JStr (username u)); ("displayName", JStr (displayName u));
     ("passwordHash", JStr (passwordHash u)); ("role", JStr (role u));
     ("bio", nullable (bio u)); ("avatar", nullable (avatar u));
     ("isEmailVerified", JBool (isEmailVerified u));
     ("lastLoginAt", nullable_date (lastLoginAt u));
     ("createdAt", JDate (createdAt u)); ("updatedAt", JDate (updatedAt u))].
End User.

(** The unique columns a row can be looked up by. *)
Inductive UniqueField : Type := ById | ByEmail | ByUsername.

Definition column (f : UniqueField) : User.t -> string :=
  match f with
  | ById => User.id
  | ByEmail => User.email
  | ByUsername => User.username
  end.

(** [data] of [prisma.user.create] *)
Module CreateInput.
Record t : Type := mk {
  email : string; username : string; displayName : string;
  passwordHash : string; role : string }.
End CreateInput.

(** [data] of [prisma.user.update]; [None] is a key absent or [undefined],
    which the client leaves alone. *)
Module UpdateInput.
Record t : Type := mk {
  displayName : option string;
  bio : option string;
  avatar : option string;
  passwordHash : option string;
  lastLoginAt : option Z;
  updatedAt : option Z }.
End UpdateInput.

(** A call made to the client, with what it was given. *)
Inductive Query : Type :=
  | FindUnique (field : UniqueField) (value : string)
  | Create (data : CreateInput.t)
  | Update (id : string) (data : UpdateInput.t).

(** The table, and the calls made so far (oldest first). *)
Record Db : Type := mkDb { users : list User.t; queries : list Query }.

(** What is not a function of the inputs: the clock, the salt bcrypt draws,
    the identifier the store gives a new row. *)
Record Env : Type := mkEnv { now : Z; salt : string; cuid : string }.

(** An asynchronous operation: it reads and writes the store and returns or
    throws.  Nothing is rolled back when it throws. *)
Definition M (A : Type) : Type := Db -> (Failure + A) * Db.

Definition ret {A : Type} (a : A) : M A := fun db => (inr a, db).
Definition throw {A : Type} (e : Failure) : M A := fun db => (inl e, db).
Definition bind {A B : Type} (m : M A) (k : A -> M B) : M B :=
  fun db =>
    match m db with
    | (inr a, db') => k a db'
    | (inl e, db') => (inl e, db')
    end.

Notation "x <- m ;; k" := (bind m (fun x => k))
  (at level 100, m at next level, right associativity).

Definition record_query (q : Query) (db : Db) : Db :=
  {| users := users db; queries := queries db ++ [q] |}.

(** [schema.parse (data)] *)
Definition parse {A : Type} (r : list ZodIssue + A) : M A :=
  match r with
  | inr validatedData => ret validatedData
  | inl l => throw (ZodError l)
  end.

Section Store.
Context `{Config}.

(** The row whose column [f] holds [value], if any. *)
Definition lookup_user (f : UniqueField) (value : string) (db : Db) : option User.t :=
  find (fun u => String.eqb (column f u) value) (users db).

(** [prisma.user.findUnique ({ where: { field: value } })] *)
Definition findUnique (f : UniqueField) (value : string) : M (option User.t) :=
  fun db => (inr (lookup_user f value db), record_query (FindUnique f value) db).

Definition clashes (u v : User.t) : bool :=
  String.eqb (User.id v) (User.id u) ||
  String.eqb (User.email v) (User.email u) ||
  String.eqb (User.username v) (User.username u).

(** [prisma.user.create ({ data })]: the store rejects a row that repeats
    a unique column (error P2002). *)
Definition create (data : CreateInput.t) (env : Env) : M User.t :=
  fun db =>
    let db' := record_query (Create data) db in
    let u := {| User.id := cuid env;
                User.email := CreateInput.email data;
                User.username := CreateInput.username data;
                User.displayName := CreateInput.displayName data;
                User.passwordHash := CreateInput.passwordHash data;
                User.role := CreateInput.role data;
                User.bio := None;
                User.avatar := None;
                User.isEmailVerified := false;
                User.lastLoginAt := None;
                User.createdAt := now env;
                User.updatedAt := now env |} in
    if existsb (clashes u) (users db) then (inl (PrismaError "P2002"), db')
    else (inr u, {| users := users db' ++ [u]; queries := queries db' |}).

(** The row after an update: each column of [data] that is set replaces
    the row's; [updatedAt], when [data] does not set it, is filled by the
    client only if the schema declares it [@updatedAt]. *)
Definition written (data : UpdateInput.t) (env : Env) (u : User.t) : User.t :=
  {| User.id := User.id u;
     User.email := User.email u;
     User.username := User.username u;
     User.displayName := default (User.displayName u) (UpdateInput.displayName data);
     User.passwordHash := default (User.passwordHash u) (UpdateInput.passwordHash data);
     User.role := User.role u;
     User.bio := match UpdateInput.bio data with Some b => Some b | None => User.bio u end;
     User.avatar := match UpdateInput.avatar data with Some a => Some a | None => User.avatar u end;
     User.isEmailVerified := User.isEmailVerified u;
     User.lastLoginAt :=
       match UpdateInput.lastLoginAt data with Some t => Some t | None => User.lastLoginAt u end;
     User.createdAt := User.createdAt u;
     User.updatedAt :=
       match UpdateInput.updatedAt data with
       | Some t => t
       | None => if schema_updatedAt then now env else User.updatedAt u
       end |}.

(** [prisma.user.update ({ where: { id }, data })]: throws (error P2025)
    when no row has this id. *)
Definition update (id : string) (data : UpdateInput.t) (env : Env) : M User.t :=
  fun db =>
    let db' := record_query (Update id data) db in
    match lookup_user ById id db with
    | None => (inl (PrismaError "P2025"), db')
    | Some u =>
      (inr (written data env u),
       {| users := map (fun v => if String.eqb (User.id v) id then written data env v else v)
                       (users db');
          queries := queries db' |})
    end.
End Store.

(** ** The account service ([AuthService]) *)

Module AuthResult.
Record t : Type := mk { user : JsObject; token : string }.
End AuthResult.

(** [excludePassword]:
    [const { passwordHash, ...userWithoutPassword } = user] *)
Definition excludePassword (u : User.t) : JsObject :=
  delete "passwordHash" (User.object u).

Definition is_found (u : option User.t) : bool :=
  match u with Some _ => true | None => false end.

Section Service.
Context `{Validators} `{Bcrypt} `{Jws} `{Config}.

(** [hashPassword]: [bcrypt.hash (password, 12)] *)
Definition hashPassword (password : string) (env : Env) : string :=
  bcrypt_hash password 12 (salt env).

(** [verifyPassword]: [bcrypt.compare (password, hash)] *)
Definition verifyPassword (password hash : string) : bool :=
  bcrypt_compare password hash.

Definition register (data : JsObject) (env : Env) : M AuthResult.t :=
  validatedData <- parse (registerSchema data) ;;
  existingUserByEmail <- findUnique ByEmail (RegisterData.email validatedData) ;;
  if is_found existingUserByEmail then
    throw (AuthError "该邮箱已被注册" "EMAIL_EXISTS" (Some "email"))
  else
  existingUserByUsername <- findUnique ByUsername (RegisterData.username validatedData) ;;
  if is_found existingUserByUsername then
    throw (AuthError "该用户名已被使用" "USERNAME_EXISTS" (Some "username"))
  else
  let passwordHash := hashPassword (RegisterData.password validatedData) env in
  user <- create {| CreateInput.email := RegisterData.email validatedData;
                    CreateInput.username := RegisterData.username validatedData;
                    CreateInput.displayName := RegisterData.displayName validatedData;
                    CreateInput.passwordHash := passwordHash;
                    CreateInput.role := "USER" |} env ;;
  let token := generateToken {| Payload.userId := User.id user;
                                Payload.email := User.email user;
                                Payload.role := User.role user |} (now env) in
  ret {| AuthResult.user := excludePassword user; AuthResult.token := token |}.

Definition login (data : JsObject) (env : Env) : M AuthResult.t :=
  validatedData <- parse (loginSchema data) ;;
  user <- findUnique ByEmail (LoginData.email validatedData) ;;
  match user with
  | None => throw (AuthError "邮箱或密码错误" "INVALID_CREDENTIALS" None)
  | Some user =>
    let isPasswordValid :=
      verifyPassword (LoginData.password validatedData) (User.passwordHash user) in
    if negb isPasswordValid then
      throw (AuthError "邮箱或密码错误" "INVALID_CREDENTIALS" None)
    else
    updatedUser <- update (User.id user)
                     {| UpdateInput.displayName := None;
                        UpdateInput.bio := None;
                        UpdateInput.avatar := None;
                        UpdateInput.passwordHash := None;
                        UpdateInput.lastLoginAt := Some (now env);
                        UpdateInput.updatedAt := None |} env ;;
    let token := generateToken {| Payload.userId := User.id user;
                                  Payload.email := User.email user;
                                  Payload.role := User.role user |} (now env) in
    ret {| AuthResult.user := excludePassword updatedUser; AuthResult.token := token |}
  end.

Definition getCurrentUser (userId : string) : M JsObject :=
  user <- findUnique ById userId ;;
  match user with
  | None => throw (AuthError "用户不存在" "USER_NOT_FOUND" None)
  | Some user => ret (excludePassword user)
  end.

Definition updateProfile (userId : string) (data : JsObject) (env : Env)
    : M JsObject :=
  validatedData <- parse (updateProfileSchema data) ;;
  updatedUser <- update userId
                   {| UpdateInput.displayName := UpdateProfileData.displayName validatedData;
                      UpdateInput.bio := UpdateProfileData.bio validatedData;
                      UpdateInput.avatar := UpdateProfileData.avatar validatedData;
                      UpdateInput.passwordHash := None;
                      UpdateInput.lastLoginAt := None;
                      UpdateInput.updatedAt := Some (now env) |} env ;;
  ret (excludePassword updatedUser).

Definition changePassword (userId : string) (data : JsObject) (env : Env)
    : M unit :=
  validatedData <- parse (changePasswordSchema data) ;;
  user <- findUnique ById userId ;;
  match user with
  | None => throw (AuthError "用户不存在" "USER_NOT_FOUND" None)
  | Some user =>
    let isCurrentPasswordValid :=
      verifyPassword (ChangePasswordData.oldPassword validatedData) (User.passwordHash user) in
    if negb isCurrentPasswordValid then
      throw (AuthError "当前密码错误" "INVALID_PASSWORD" None)
    else
    let newPasswordHash := hashPassword (ChangePasswordData.newPassword validatedData) env in
    _ <- update userId
           {| UpdateInput.displayName := None;
              UpdateInput.bio := None;
              UpdateInput.avatar := None;
              UpdateInput.passwordHash := Some newPasswordHash;
              UpdateInput.lastLoginAt := None;
              UpdateInput.updatedAt := Some (now env) |} env ;;
    ret tt
  end.

Definition getUserByToken (token : string) (env : Env) : M JsObject :=
  match verifyToken token (now env) with
  | inl e => throw e
  | inr c => getCurrentUser (Payload.userId (payload c))
  end.
End Service.

(** ** The inputs the specification speaks about *)




(** The body of a login request. *)
Definition credentials (email password : string) : JsObject :=
  <["email" := JStr email]> (<["password" := JStr password]> ∅).

(** Whether a key of an update is supplied (present and not [undefined]). *)
Definition supplied (data : JsObject) (k : string) : bool :=
  match prop data k with
  | JUndefined => false
  | _ => true
  end.

(** How an optional string key of the input reaches the parsed object. *)
Definition parsed_as (v : JsVal) (o : option string) : Prop :=
  match o with
  | None => v = JUndefined
  | Some s => v = JStr s
  end.

(** The emails of the table. *)
Definition emails (db : Db) : list string := map User.email (users db).

Section StoreInvariant.
Context `{Validators}.

(** The invariant of the data model on which a login relies, and which the
    service keeps: no two rows share an email, and every email has the
    format that [loginSchema] asks for. *)
Definition well_formed_store (db : Db) : Prop :=
  NoDup (emails db) /\ Forall (fun e => is_email e = true) (emails db).
End StoreInvariant.

(** The [data] that [changePassword] writes. *)
Definition password_update (newPasswordHash : string) (env : Env) : UpdateInput.t :=
  {| UpdateInput.displayName := None; UpdateInput.bio := None;
     UpdateInput.avatar := None; UpdateInput.passwordHash := Some newPasswordHash;
     UpdateInput.lastLoginAt := None; UpdateInput.updatedAt := Some (now env) |}.

Definition INVALID_CREDENTIALS : Failure :=
  AuthError "邮箱或密码错误" "INVALID_CREDENTIALS" None.

(** ** Concrete collaborators, to run the service on examples *)

Module Demo.
Fixpoint has_char (a : ascii) (s : string) : bool :=
  match s with
  | EmptyString => false
  | String b s' => Ascii.eqb a b || has_char a s'
  end.

Definition validators : Validators :=
  {| is_email := fun s => has_char "@" s && has_char "." s;
     is_url := fun s => String.prefix "https://" s |}.

(** An injective stand-in for the hash: [compare p (hash q) = true]
    exactly when [p = q]. *)
Definition bcrypt : Bcrypt :=
  {| bcrypt_hash := fun password _ _ => "$2a$12$" ++ password;
     bcrypt_compare := fun password hash => String.eqb hash ("$2a$12$" ++ password) |}.

Definition config : Config :=
  {| JWT_SECRET := "your-super-secret-jwt-key-change-this-in-production";
     JWT_EXPIRES_IN := 604800;
     schema_updatedAt := false |}.

Definition alice : Payload.t :=
  {| Payload.userId := "u1"; Payload.email := "a@x.com"; Payload.role := "USER" |}.

(** What [generateToken] serialises for [alice] at time 1000000 ms. *)
Definition issued_claims : Claims :=
  {| payload := alice; iat := Some 1000; nbf := None; exp := Some 605800;
     iss := None; aud := [] |}.

(** A token of the same account that carries the issuer and the audience
    [verifyToken] asks for. *)
Definition tagged_claims : Claims :=
  {| payload := alice; iat := Some 1000; nbf := None; exp := Some 605800;
     iss := Some "blog-backend"; aud := ["blog-frontend"] |}.

#[local] Instance payload_eq_dec : EqDecision Payload.t.
Proof. solve_decision. Defined.
#[local] Instance claims_eq_dec : EqDecision Claims.
Proof. solve_decision. Defined.

(** The tokens this codec knows, with their content and signing key. *)
Definition token_table : list (string * (Claims * string)) :=
  [("issued.alice.token", (issued_claims, JWT_SECRET (Config := config)));
   ("tagged.alice.token", (tagged_claims, JWT_SECRET (Config := config)));
   ("tagged.alice.forged", (tagged_claims, "another-key"))].

Definition jws : Jws :=
  {| jws_sign := fun c k =>
       default "" (fst <$> find (fun e => bool_decide (snd e = (c, k))) token_table);
     jws_open := fun s =>
       snd <$> find (fun e => String.eqb (fst e) s) token_table |}.

Definition env0 : Env := {| now := 1000000; salt := "salt0"; cuid := "u2" |}.

Definition alice_row : User.t :=
  {| User.id := "u1"; User.email := "a@x.com"; User.username := "alice";
     User.displayName := "Alice";
     User.passwordHash := "$2a$12$secret1";
     User.role := "USER"; User.bio := None; User.avatar := None;
     User.isEmailVerified := false; User.lastLoginAt := None;
     User.createdAt := 500; User.updatedAt := 500 |}.

Definition db0 : Db := {| users := [alice_row]; queries := [] |}.

Definition object (l : list (string * JsVal)) : JsObject := list_to_map l.

Definition registration (email username : string) (agree : JsVal) : JsObject :=
  object [("email", JStr email); ("username", JStr username);
          ("displayName", JStr "Bob"); ("password", JStr "secret1");
          ("agreeToTerms", agree)].

Definition password_change (old new : string) : JsObject :=
  object [("oldPassword", JStr old); ("newPassword", JStr new)].

Definition with_header (h : string) : Request :=
  {| authorization := Some h; user := None |}.
End Demo.

(** ** The invariant of the unique columns *)

(** No two rows share an id, an email or a username. *)
Definition unique_accounts (db : Db) : Prop :=
  NoDup (map User.id (users db)) /\
  NoDup (map User.email (users db)) /\
  NoDup (map User.username (users db)).


(** ** The routes of the account service ([auth.routes.ts]) *)

(** The [data] of a successful answer. *)
Inductive Data : Type :=
  | auth_data (result : AuthResult.t)        (* [{ user, token }] *)
  | account_data (account : JsObject)
  | verify_data (valid : bool) (caller : Identity.t)
  | no_data.

(** What a route sends: [res.status (status).json ({ success: true, data,
    message })], or [{ success: false, error: { code, message, field,
    details } }], where [details] has one entry (field and message) for
    each issue of a [ZodError]. *)
Inductive Answer : Type :=
  | success (status : Z) (data : Data) (message : option string)
  | failure (status : Z) (code : string) (message : string)
            (field : option string) (details : list ZodIssue).

(** [handleError] *)
Definition handleError (error : Failure) : Answer :=
  match error with
  | AuthError message code field => failure 400 code message field []
  | ZodError l => failure 400 "VALIDATION_ERROR" "输入数据格式错误" None l
  | _ => failure 500 "SERVER_ERROR" "服务器内部错误" None []
  end.

Section Routes.
Context `{Validators} `{Bcrypt} `{Jws} `{Config}.

(** A route behind [authenticateToken], which runs at time [clock]: the
    handler runs on the call the middleware hands on.  [req.user!] of a
    call without identity throws, which the handler's [catch] gives to
    [handleError]. *)
Definition behind_gate (handler : Identity.t -> Db -> Answer * Db)
    (req : Request) (clock : Z) (db : Db) : Answer * Db :=
  match authenticateToken req clock with
  | respond status code message => (failure status code message None [], db)
  | next req' =>
    match user req' with
    | Some caller => handler caller db
    | None => (failure 500 "SERVER_ERROR" "服务器内部错误" None [], db)
    end
  end.

(** [POST /register] *)
Definition post_register (body : JsObject) (env : Env) (db : Db) : Answer * Db :=
  match register body env db with
  | (inr result, db') => (success 201 (auth_data result) (Some "注册成功"), db')
  | (inl error, db') => (handleError error, db')
  end.

(** [POST /login] *)
Definition post_login (body : JsObject) (env : Env) (db : Db) : Answer * Db :=
  match login body env db with
  | (inr result, db') => (success 200 (auth_data result) (Some "登录成功"), db')
  | (inl error, db') => (handleError error, db')
  end.

(** [GET /me] *)
Definition get_me : Request -> Z -> Db -> Answer * Db :=
  behind_gate (fun caller db =>
    match getCurrentUser (Identity.userId caller) db with
    | (inr user, db') => (success 200 (account_data user) None, db')
    | (inl error, db') => (handleError error, db')
    end).

(** [PUT /profile] *)
Definition put_profile (body : JsObject) (env : Env) : Request -> Z -> Db -> Answer * Db :=
  behind_gate (fun caller db =>
    match updateProfile (Identity.userId caller) body env db with
    | (inr user, db') => (success 200 (account_data user) (Some "资料更新成功"), db')
    | (inl error, db') => (handleError error, db')
    end).

(** [PUT /password] *)
Definition put_password (body : JsObject) (env : Env) : Request -> Z -> Db -> Answer * Db :=
  behind_gate (fun caller db =>
    match changePassword (Identity.userId caller) body env db with
    | (inr _, db') => (success 200 no_data (Some "密码修改成功"), db')
    | (inl error, db') => (handleError error, db')
    end).

(** [POST /logout] *)
Definition post_logout : Request -> Z -> Db -> Answer * Db :=
  behind_gate (fun _ db => (success 200 no_data (Some "退出登录成功"), db)).

(** [GET /verify] *)
Definition get_verify : Request -> Z -> Db -> Answer * Db :=
  behind_gate (fun caller db =>
    (success 200 (verify_data true
                    {| Identity.userId := Identity.userId caller;
                       Identity.email := Identity.email caller;
                       Identity.role := Identity.role caller |}) None, db)).

(** The identity that [authenticateToken] attaches for a token. *)
Definition identity_of (c : Claims) : Identity.t :=
  {| Identity.userId := Payload.userId (payload c);
     Identity.email := Payload.email (payload c);
     Identity.role := Payload.role (payload c) |}.

(** The token a call presents verifies, with content [c]. *)
Definition presents (req : Request) (clock : Z) (c : Claims) : Prop :=
  exists t, bearerToken (authorization req) = Some t /\ t <> "" /\
            all_checks_pass t clock c.
End Routes.

(** ** The article service: reading time, slugs, deletion *)

(** The text of an article goes beyond Latin-1: such a string is the
    sequence of its UTF-16 code units. *)
Abbreviation text := (list N).

(** The code units of an ASCII string. *)
Definition units (s : string) : text := map N_of_ascii (list_ascii_of_string s).

(** [`${n}`] for a counter or a number of minutes, and for a time. *)
Definition decimal (n : nat) : text := units (pretty n).
Definition decimal_time (t : Z) : text := units (pretty t).

(** [String.prototype.toLowerCase], which follows the Unicode tables. *)
Class Unicode : Type := { toLowerCase : text -> text }.

(** [Math.ceil (n / d)] on lengths, where the division is exact on the
    integers a string length can be. *)
Definition ceil_div (n d : nat) : nat :=
  if (n mod d =? 0)%nat then (n / d)%nat else S (n / d).

(** [calculateReadTime] *)
Definition calculateReadTime (content : text) : text :=
  let wordsPerMinute := 200%nat in
  let wordCount := length content in
  let minutes := ceil_div wordCount wordsPerMinute in
  (decimal minutes ++ [20998; 38047]%N)%list.          (* [`${minutes}分钟`] *)

Definition dash : N := 45.

(** [[a-z0-9]] *)
Definition lower_or_digit (c : N) : bool :=
  ((97 <=? c) && (c <=? 122) || (48 <=? c) && (c <=? 57))%N.

(** [[a-z0-9\u4e00-\u9fa5]] *)
Definition slug_unit (c : N) : bool :=
  lower_or_digit c || ((19968 <=? c) && (c <=? 40869))%N.

(** [s.replace (/[p]+/g, '-')]: every maximal run of units in the class
    [p] becomes one dash; [in_run] tells that the unit before was in a
    run. *)
Fixpoint replace_runs (p : N -> bool) (in_run : bool) (s : text) : text :=
  match s with
  | [] => []
  | c :: s' =>
    if p c then
      if in_run then replace_runs p true s' else dash :: replace_runs p true s'
    else c :: replace_runs p false s'
  end.

(** [s.replace (/^-|-$/g, '')]: a dash at the start goes, then a dash at
    the end. *)
Definition strip_leading (s : text) : text :=
  match s with
  | c :: s' => if (c =? dash)%N then s' else s
  | [] => []
  end.

Definition strip_trailing (s : text) : text := rev (strip_leading (rev s)).

Definition strip_ends (s : text) : text := strip_trailing (strip_leading s).

Module Article.
(** A row of the [Article] model, with the columns the sources use. *)
Record t : Type := mk {
  id : string;
  title : text;
  slug : text;
  content : text;
  excerpt : text;
  category : text;
  tags : text;
  imageUrl : option string;
  isPublished : bool;
  publishDate : Z;
  readTime : text;
  authorId : string;
  viewCount : Z;
  createdAt : Z;
  updatedAt : Z
}.
End Article.

(** [prisma.article.findUnique ({ where: { slug } })] *)
Definition article_by_slug (slug : text) (articles : list Article.t) : option Article.t :=
  find (fun a => bool_decide (Article.slug a = slug)) articles.

(** [prisma.article.findUnique ({ where: { id } })] *)
Definition article_by_id (id : string) (articles : list Article.t) : option Article.t :=
  find (fun a => String.eqb (Article.id a) id) articles.

Section Slugs.
Context `{Unicode}.

(** The first part of [generateUniqueSlug]: the slug of a title, or
    [`article-${Date.now ()}`] when that slug has no letter or digit. *)
Definition title_slug (title : text) (now : Z) : text :=
  let slug :=
    strip_ends
      (replace_runs (N.eqb dash) false
         (replace_runs (fun c => negb (slug_unit c)) false (toLowerCase title))) in
  if negb (existsb lower_or_digit slug) then (units "article-" ++ decimal_time now)%list
  else slug.

(** The loop of [generateUniqueSlug], which ends as soon as the slug is
    free or is the one of the article [excludeId]; [fuel] bounds the number
    of rounds. *)
Fixpoint unique_slug_loop (fuel : nat) (articles : list Article.t) (slug : text)
    (excludeId : option string) (counter : nat) (uniqueSlug : text) : option text :=
  match fuel with
  | O => None
  | S fuel' =>
    match article_by_slug uniqueSlug articles with
    | None => Some uniqueSlug
    | Some existingArticle =>
      if bool_decide (Some (Article.id existingArticle) = excludeId) then Some uniqueSlug
      else
        let counter := S counter in
        unique_slug_loop fuel' articles slug excludeId counter
          (slug ++ [dash] ++ decimal counter)%list
    end
  end.

(** [generateUniqueSlug (title, excludeId)] *)
Definition generateUniqueSlug (fuel : nat) (title : text) (excludeId : option string)
    (now : Z) (articles : list Article.t) : option text :=
  let slug := title_slug title now in
  unique_slug_loop fuel articles slug excludeId 0 slug.
End Slugs.

(** The slug tried after [counter] collisions. *)
Definition candidate (slug : text) (counter : nat) : text :=
  match counter with
  | O => slug
  | S _ => (slug ++ [dash] ++ decimal counter)%list
  end.

(** A slug is taken when the store finds an article under it that is not
    the excluded one. *)
Definition taken (articles : list Article.t) (excludeId : option string) (slug : text)
    : Prop :=
  exists a, article_by_slug slug articles = Some a /\ Some (Article.id a) <> excludeId.

(** The store of the blog: the accounts and the articles. *)
Record Blog : Type := mkBlog { accounts : Db; articles : list Article.t }.

(** [ArticleError (message, code, field)] *)
Inductive ArticleFailure : Type :=
  | ArticleError (message : string) (code : string) (field : option string).

(** [deleteArticle]: only the author or an administrator may delete. *)
Definition deleteArticle (id userId : string) (blog : Blog)
    : (ArticleFailure + unit) * Blog :=
  match article_by_id id (articles blog) with
  | None => (inl (ArticleError "文章不存在" "ARTICLE_NOT_FOUND" None), blog)
  | Some existingArticle =>
    let user := lookup_user ById userId (accounts blog) in
    let blog1 := {| accounts := record_query (FindUnique ById userId) (accounts blog);
                    articles := articles blog |} in
    let denied :=
      match user with
      | None => true
      | Some user =>
        negb (String.eqb (Article.authorId existingArticle) userId) &&
        negb (String.eqb (User.role user) "ADMIN")
      end in
    if denied then (inl (ArticleError "没有权限删除此文章" "PERMISSION_DENIED" None), blog1)
    else
      (inr tt,
       {| accounts := accounts blog1;
          articles := List.filter (fun a => negb (String.eqb (Article.id a) id))
                                  (articles blog1) |})
  end.

(** ** A concrete blog, to run the article service on examples *)

Module DemoBlog.
(** Lower case on the Latin capitals, which is what [toLowerCase] does to
    the code units below 128. *)
Definition unicode : Unicode :=
  {| toLowerCase := map (fun c => if (65 <=? c)%N && (c <=? 90)%N then (c + 32)%N else c) |}.

Definition bob_row : User.t :=
  {| User.id := "u2"; User.email := "b@x.com"; User.username := "bob";
     User.displayName := "Bob";
     User.passwordHash := "$2a$12$secret2";
     User.role := "USER"; User.bio := None; User.avatar := None;
     User.isEmailVerified := false; User.lastLoginAt := None;
     User.createdAt := 600; User.updatedAt := 600 |}.

Definition db1 : Db := {| users := [Demo.alice_row; bob_row]; queries := [] |}.

(** What [registerSchema] makes of [Demo.registration "b@x.com" "bob" true]. *)
Definition bob : RegisterData.t :=
  {| RegisterData.email := "b@x.com"; RegisterData.username := "bob";
     RegisterData.displayName := "Bob"; RegisterData.password := "secret1";
     RegisterData.agreeToTerms := true |}.

Definition article (id : string) (slug : string) (authorId : string) : Article.t :=
  {| Article.id := id; Article.title := units "Hello, World!"; Article.slug := units slug;
     Article.content := units "Some text."; Article.excerpt := units "Some text.";
     Article.category := units "news"; Article.tags := units "[]";
     Article.imageUrl := None; Article.isPublished := true; Article.publishDate := 700;
     Article.readTime := units "1"; Article.authorId := authorId; Article.viewCount := 0;
     Article.createdAt := 700; Article.updatedAt := 700 |}.

Definition shelf : list Article.t :=
  [article "a1" "hello-world" "u1"; article "a2" "hello-world-1" "u2"].
End DemoBlog.

(** * Properties *)

Section TokenProperties.
Context `{Jws} `{Config}.

Lemma audience_matches_In (a : string) (c : Claims) :
  audience_matches a c = true <-> In a (aud c).
Proof.
  unfold audience_matches. rewrite existsb_exists. split.
  - intros (x & Hx & Heq). apply String.eqb_eq in Heq. now subst.
  - intros Hin. exists a. split; [assumption | apply String.eqb_refl].
Qed.

Lemma issuer_matches_Some (i : string) (c : Claims) :
  issuer_matches i c = true <-> iss c = Some i.
Proof.
  unfold issuer_matches. destruct (iss c) as [j|]; [|split; discriminate].
  rewrite String.eqb_eq. split; congruence.
Qed.

Lemma not_before_passes (c : Claims) (now : Z) :
  match nbf c with Some t => clockTimestamp now <? t | None => false end = false
  <-> forall t, nbf c = Some t -> t <= clockTimestamp now.
Proof.
  destruct (nbf c) as [t|].
  - rewrite Z.ltb_ge. split; [intros Hle ? [= <-]; exact Hle | intros Hall; now apply Hall].
  - split; [discriminate | reflexivity].
Qed.

Lemma not_expired_passes (c : Claims) (now : Z) :
  match exp c with Some t => t <=? clockTimestamp now | None => false end = false
  <-> forall t, exp c = Some t -> clockTimestamp now < t.
Proof.
  destruct (exp c) as [t|].
  - rewrite Z.leb_gt. split; [intros Hlt ? [= <-]; exact Hlt | intros Hall; now apply Hall].
  - split; [discriminate | reflexivity].
Qed.

(** [verifyToken] returns the decoded content exactly when every check
    passes. *)
Lemma verifyToken_inr (token : string) (now : Z) (c : Claims) :
  verifyToken token now = inr c <-> all_checks_pass token now c.
Proof.
  unfold verifyToken, jwt_verify, all_checks_pass. cbn [issuer audience].
  rewrite <- not_before_passes, <- not_expired_passes,
          <- audience_matches_In, <- issuer_matches_Some.
  destruct (jws_open token) as [[c' k]|].
  2:{ split; [discriminate | intros [? _]; discriminate]. }
  destruct (String.eqb_spec k JWT_SECRET) as [->|Hk]; cbn [negb].
  2:{ split; [discriminate | intros [[= _ ?] _]; contradiction]. }
  destruct (match nbf c' with Some t => _ | None => _ end) eqn:Hn.
  { split; [discriminate | intros ([= <-] & ? & _); congruence]. }
  destruct (match exp c' with Some t => _ | None => _ end) eqn:He.
  { split; [discriminate | intros ([= <-] & _ & ? & _); congruence]. }
  destruct (audience_matches "blog-frontend" c') eqn:Ha; cbn [negb].
  2:{ split; [discriminate | intros ([= <-] & _ & _ & ? & _); congruence]. }
  destruct (issuer_matches "blog-backend" c') eqn:Hi; cbn [negb].
  2:{ split; [discriminate | intros ([= <-] & _ & _ & _ & ?); congruence]. }
  split; [intros [= <-]; auto | intros ([= <-] & _); reflexivity].
Qed.

(** Every failure of [verifyToken] is the one [INVALID_TOKEN] error. *)
Lemma verifyToken_inl (token : string) (now : Z) (e : Failure) :
  verifyToken token now = inl e -> e = INVALID_TOKEN.
Proof.
  unfold verifyToken. destruct (jwt_verify _ _ _ _); [intros [= <-]; reflexivity | discriminate].
Qed.

Lemma verifyToken_cases (token : string) (now : Z) :
  verifyToken token now = inl INVALID_TOKEN \/ exists c, verifyToken token now = inr c.
Proof.
  destruct (verifyToken token now) as [e|c] eqn:Hv; [left | right; eauto].
  now rewrite (verifyToken_inl _ _ _ Hv).
Qed.

Lemma verifyToken_fails_iff (token : string) (now : Z) :
  verifyToken token now = inl INVALID_TOKEN <-> ~ exists c, all_checks_pass token now c.
Proof.
  split.
  - intros Hv [c Hc]. apply verifyToken_inr in Hc. congruence.
  - intros Hno. destruct (verifyToken_cases token now) as [Hv|[c Hv]]; [exact Hv|].
    exfalso. apply Hno. exists c. now apply verifyToken_inr.
Qed.

(** C5. Whatever makes verification fail (a malformed token, a signature
    under another key, a wrong or missing issuer or audience, an expiry in
    the past) [verifyToken] fails with the single kind [INVALID_TOKEN],
    never with another one, and it returns the token's content exactly
    when all checks pass. *)
Theorem verifyToken_collapses_failures (token : string) (now : Z) :
  (forall c, verifyToken token now = inr c <-> all_checks_pass token now c) /\
  (verifyToken token now = inl INVALID_TOKEN <-> ~ exists c, all_checks_pass token now c) /\
  (forall e, verifyToken token now = inl e ->
             e = AuthError "Token无效或已过期" "INVALID_TOKEN" None) /\
  (jws_open token = None -> verifyToken token now = inl INVALID_TOKEN) /\
  (forall c k, jws_open token = Some (c, k) ->
     k <> JWT_SECRET \/ iss c <> Some "blog-backend" \/ ~ In "blog-frontend" (aud c) \/
     (exists t, exp c = Some t /\ t <= clockTimestamp now) ->
     verifyToken token now = inl INVALID_TOKEN).
Proof.
  pose proof (verifyToken_fails_iff token now) as Hiff.
  split; [apply verifyToken_inr|].
  split; [exact Hiff|].
  split; [apply verifyToken_inl|].
  split.
  - intros Hopen. apply Hiff. intros (c & Hc & _). congruence.
  - intros c k Hopen Hbad. apply Hiff.
    intros (c' & Hc & _ & Hexp & Haud & Hiss).
    rewrite Hopen in Hc. injection Hc as <- ->.
    destruct Hbad as [Hk|[Hi|[Ha|(t & Ht & Hle)]]]; try contradiction.
    specialize (Hexp _ Ht). lia.
Qed.

Lemma signed_content_untagged (p : Payload.t) (expiresIn now : Z) :
  iss (signed_content p expiresIn now) = None /\
  aud (signed_content p expiresIn now) = [].
Proof. split; reflexivity. Qed.

(** C1. [generateToken] signs the payload with an expiry only: the token
    carries neither the issuer nor the audience that [verifyToken] asks
    for, so a token the service has just issued is rejected with
    [INVALID_TOKEN] at every time, also inside its validity window. *)
Theorem issued_token_is_rejected (p : Payload.t) (now later : Z) :
  jws_open (generateToken p now)
    = Some (signed_content p JWT_EXPIRES_IN now, JWT_SECRET) ->
  iss (signed_content p JWT_EXPIRES_IN now) = None /\
  aud (signed_content p JWT_EXPIRES_IN now) = [] /\
  verifyToken (generateToken p now) later = inl INVALID_TOKEN.
Proof.
  intros Hopen. split; [reflexivity|]. split; [reflexivity|].
  destruct (verifyToken_cases (generateToken p now) later) as [Hv|[c Hv]]; [exact Hv|].
  apply verifyToken_inr in Hv. destruct Hv as (Hc & _ & _ & _ & Hiss).
  rewrite Hopen in Hc. injection Hc as <-. discriminate Hiss.
Qed.
End TokenProperties.

Section GateProperties.
Context `{Jws} `{Config}.

Lemma slice_empty (n : nat) (s : string) :
  slice n s = "" <-> (String.length s <= n)%nat.
Proof.
  revert s. induction n as [|n IH]; intros [|a s]; cbn; try (split; [lia | reflexivity]).
  - split; [discriminate | lia].
  - rewrite IH. lia.
Qed.

Lemma prefix_length (p s : string) :
  String.prefix p s = true -> (String.length p <= String.length s)%nat.
Proof.
  revert s. induction p as [|a p IH]; intros [|b s]; cbn; try lia; try discriminate.
  destruct (Ascii.ascii_dec a b); [|discriminate]. intros Hp. apply IH in Hp. lia.
Qed.

Lemma prefix_same_length (p s : string) :
  String.prefix p s = true -> String.length s = String.length p -> s = p.
Proof.
  revert s. induction p as [|a p IH]; intros [|b s]; cbn; try discriminate; try reflexivity.
  destruct (Ascii.ascii_dec a b) as [->|]; [|discriminate].
  intros Hp [= Hlen]. f_equal. now apply IH.
Qed.

Lemma no_token_iff (authHeader : option string) :
  no_token (bearerToken authHeader) = true <-> no_bearer_credential authHeader.
Proof.
  destruct authHeader as [h|]; cbn; [|tauto].
  destruct (String.eqb_spec h "") as [->|Hne]; cbn; [tauto|].
  destruct (String.prefix "Bearer " h) eqn:Hp; cbn; [|tauto].
  rewrite String.eqb_eq.
  rewrite (slice_empty 7 h). split.
  - intros Hlen. right. apply (prefix_same_length "Bearer " h Hp).
    apply prefix_length in Hp. cbn in Hp |- *. lia.
  - intros [?| ->]; [discriminate | cbn; lia].
Qed.

Lemma authenticateToken_present (req : Request) (now : Z) (t : string) :
  bearerToken (authorization req) = Some t -> t <> "" ->
  authenticateToken req now =
    match verifyToken t now with
    | inr c => next (attach req c)
    | inl _ => respond 401 "INVALID_TOKEN" "Token无效或已过期"
    end.
Proof.
  intros Hb Hne. unfold authenticateToken. rewrite Hb. cbn.
  destruct (String.eqb_spec t "") as [|_]; [contradiction|].
  destruct (verifyToken t now) as [e|c] eqn:Hv; [|reflexivity].
  now rewrite (verifyToken_inl _ _ _ Hv).
Qed.

(** C8. In mandatory mode the gate answers a call without bearer
    credential with [NO_TOKEN] and a call whose token does not verify (an
    expired one, say) with [INVALID_TOKEN]; behind it, the role gate
    answers a verified identity whose role is not among the required ones
    with [INSUFFICIENT_PERMISSIONS], and a call with no identity attached
    with [NOT_AUTHENTICATED]. *)
Theorem access_gate_failures (req : Request) (now : Z) (roles : list string) :
  (no_bearer_credential (authorization req) ->
     authenticateToken req now = respond 401 "NO_TOKEN" "请提供认证token") /\
  (forall t, bearerToken (authorization req) = Some t -> t <> "" ->
     (~ exists c, all_checks_pass t now c) ->
     authenticateToken req now = respond 401 "INVALID_TOKEN" "Token无效或已过期") /\
  (forall t c, bearerToken (authorization req) = Some t -> t <> "" ->
     all_checks_pass t now c -> ~ In (Payload.role (payload c)) roles ->
     exists req', authenticateToken req now = next req' /\
                  requireRole roles req' = respond 403 "INSUFFICIENT_PERMISSIONS" "权限不足") /\
  (user req = None ->
     requireRole roles req = respond 401 "NOT_AUTHENTICATED" "请先登录").
Proof.
  repeat split.
  - intros Hno. apply no_token_iff in Hno. unfold authenticateToken. now rewrite Hno.
  - intros t Hb Hne Hbad. rewrite (authenticateToken_present _ _ _ Hb Hne).
    apply verifyToken_fails_iff in Hbad. now rewrite Hbad.
  - intros t c Hb Hne Hok Hrole. exists (attach req c). split.
    + rewrite (authenticateToken_present _ _ _ Hb Hne).
      apply verifyToken_inr in Hok. now rewrite Hok.
    + unfold requireRole. cbn.
      destruct (existsb _ roles) eqn:Hex; [|reflexivity].
      exfalso. apply Hrole. apply existsb_exists in Hex as (r & Hin & Heq).
      apply String.eqb_eq in Heq. now rewrite Heq.
  - intros Hu. unfold requireRole. now rewrite Hu.
Qed.
End GateProperties.

Section ServiceProperties.
Context `{Validators} `{Bcrypt} `{Jws} `{Config}.

(** Unfolds the plumbing of [M], leaving the calls of the service. *)
Ltac run :=
  unfold bind, parse, ret, throw, findUnique in *; cbn [fst snd] in *.

Lemma excludePassword_no_hash (u : User.t) :
  excludePassword u !! "passwordHash" = None.
Proof. unfold excludePassword. apply lookup_delete_eq. Qed.

Lemma excludePassword_keeps (u : User.t) (k : string) :
  k <> "passwordHash" -> excludePassword u !! k = User.object u !! k.
Proof. intros Hk. unfold excludePassword. now apply lookup_delete_ne. Qed.

(** Each operation that returns an account returns [excludePassword] of a
    row. *)
Lemma register_returns (data : JsObject) (env : Env) (db db' : Db) (r : AuthResult.t) :
  register data env db = (inr r, db') ->
  exists u, AuthResult.user r = excludePassword u.
Proof.
  unfold register. run.
  destruct (registerSchema data) as [l|v]; [discriminate|].
  destruct (is_found (lookup_user ByEmail _ db)); [discriminate|].
  destruct (is_found (lookup_user ByUsername _ _)); [discriminate|].
  destruct (create _ env _) as [[e|u] db1]; [discriminate|].
  intros [= <- _]. now exists u.
Qed.

Lemma login_returns (data : JsObject) (env : Env) (db db' : Db) (r : AuthResult.t) :
  login data env db = (inr r, db') ->
  exists u, AuthResult.user r = excludePassword u.
Proof.
  unfold login. run.
  destruct (loginSchema data) as [l|v]; [discriminate|].
  destruct (lookup_user ByEmail _ db) as [u|]; [|discriminate].
  destruct (negb _); [discriminate|]. run.
  destruct (update _ _ env _) as [[e|u'] db1]; [discriminate|].
  intros [= <- _]. now exists u'.
Qed.

Lemma getCurrentUser_returns (userId : string) (db db' : Db) (o : JsObject) :
  getCurrentUser userId db = (inr o, db') ->
  exists u, o = excludePassword u.
Proof.
  unfold getCurrentUser. run.
  destruct (lookup_user ById userId db) as [u|]; [|discriminate].
  intros [= <- _]. now exists u.
Qed.

Lemma updateProfile_returns (userId : string) (data : JsObject) (env : Env)
    (db db' : Db) (o : JsObject) :
  updateProfile userId data env db = (inr o, db') ->
  exists u, o = excludePassword u.
Proof.
  unfold updateProfile. run.
  destruct (updateProfileSchema data) as [l|v]; [discriminate|].
  destruct (update _ _ env _) as [[e|u'] db1]; [discriminate|].
  intros [= <- _]. now exists u'.
Qed.

(** C2. Whenever [register], [login], [getCurrentUser] or [updateProfile]
    returns, the account object it returns has no [passwordHash]
    property. *)
Theorem returned_account_has_no_credential
    (data : JsObject) (userId : string) (env : Env) (db db' : Db) :
  (forall r, register data env db = (inr r, db') ->
             AuthResult.user r !! "passwordHash" = None) /\
  (forall r, login data env db = (inr r, db') ->
             AuthResult.user r !! "passwordHash" = None) /\
  (forall o, getCurrentUser userId db = (inr o, db') ->
             o !! "passwordHash" = None) /\
  (forall o, updateProfile userId data env db = (inr o, db') ->
             o !! "passwordHash" = None).
Proof.
  repeat split.
  - intros r Hr. apply register_returns in Hr as [u ->]. apply excludePassword_no_hash.
  - intros r Hr. apply login_returns in Hr as [u ->]. apply excludePassword_no_hash.
  - intros o Ho. apply getCurrentUser_returns in Ho as [u ->]. apply excludePassword_no_hash.
  - intros o Ho. apply updateProfile_returns in Ho as [u ->]. apply excludePassword_no_hash.
Qed.

(** *** What a schema accepts *)

Lemma run_checks_nil (path : string) (checks : list StrCheck) (s : string) :
  run_checks path checks s = [] <-> forallb (fun c => test c s) checks = true.
Proof.
  unfold run_checks. induction checks as [|c checks IH]; cbn; [tauto|].
  destruct (test c s); cbn; [exact IH | split; discriminate].
Qed.

Lemma z_string_inr (checks : list StrCheck) (path : string) (v : JsVal) (s : string) :
  z_string checks path v = inr s <->
  v = JStr s /\ forallb (fun c => test c s) checks = true.
Proof.
  rewrite <- run_checks_nil. unfold z_string.
  destruct v as [| |b|s'|t|]; try (split; [discriminate | intros [? _]; discriminate]).
  destruct (run_checks path checks s') eqn:Hr.
  - split; [intros [= ->]; split; [reflexivity | exact Hr] | intros [[= ->] _]; reflexivity].
  - split; [discriminate | intros [[= ->] Hnil]; congruence].
Qed.



Lemma registerSchema_inr (data : JsObject) (v : RegisterData.t) :
  registerSchema data = inr v ->
  (prop data "email" = JStr (RegisterData.email v) /\
   is_email (RegisterData.email v) = true) /\
  (prop data "username" = JStr (RegisterData.username v) /\
   (3 <= String.length (RegisterData.username v) <= 20)%nat /\
   word_regex (RegisterData.username v) = true) /\
  (prop data "displayName" = JStr (RegisterData.displayName v) /\
   (2 <= String.length (RegisterData.displayName v) <= 50)%nat) /\
  (prop data "password" = JStr (RegisterData.password v) /\
   (6 <= String.length (RegisterData.password v) <= 100)%nat) /\
  prop data "agreeToTerms" = JBool true.
Proof.
  unfold registerSchema. cbv zeta.
  destruct (z_string _ "email" _) as [?|e] eqn:He; [discriminate|].
  destruct (z_string _ "username" _) as [?|u] eqn:Hu; [discriminate|].
  destruct (z_string _ "displayName" _) as [?|d] eqn:Hd; [discriminate|].
  destruct (z_string _ "password" _) as [?|p] eqn:Hp; [discriminate|].
  destruct (z_refine _ _ _ "agreeToTerms" _) as [?|a] eqn:Ha; [discriminate|].
  intros [= <-]. cbn.
  apply z_string_inr in He as [-> He], Hu as [-> Hu], Hd as [-> Hd], Hp as [-> Hp].
  cbn [forallb test] in He, Hu, Hd, Hp. unfold str_min, str_max in *.
  repeat (rewrite andb_true_iff in * ).
  repeat (rewrite Nat.leb_le in * ).
  unfold z_refine, z_boolean in Ha.
  destruct (prop data "agreeToTerms") as [| |[]| | |]; try discriminate Ha.
  repeat split; tauto || lia.
Qed.



Lemma loginSchema_inr (data : JsObject) (v : LoginData.t) :
  loginSchema data = inr v ->
  prop data "email" = JStr (LoginData.email v) /\
  is_email (LoginData.email v) = true /\
  prop data "password" = JStr (LoginData.password v) /\
  (1 <= String.length (LoginData.password v))%nat.
Proof.
  unfold loginSchema. cbv zeta.
  destruct (z_string _ "email" _) as [?|e] eqn:He; [discriminate|].
  destruct (z_string _ "password" _) as [?|p] eqn:Hp; [discriminate|].
  destruct (z_optional _ "rememberMe" _) as [?|r]; [discriminate|].
  intros [= <-]. cbn.
  apply z_string_inr in He as [-> He], Hp as [-> Hp].
  cbn [forallb test] in He, Hp. unfold str_min in Hp.
  rewrite andb_true_iff in He, Hp. rewrite Nat.leb_le in Hp. tauto.
Qed.

Lemma login_run (data : JsObject) (v : LoginData.t) (env : Env) (db : Db) :
  loginSchema data = inr v ->
  login data env db =
    let db1 := record_query (FindUnique ByEmail (LoginData.email v)) db in
    match lookup_user ByEmail (LoginData.email v) db with
    | None => (inl INVALID_CREDENTIALS, db1)
    | Some user =>
      if verifyPassword (LoginData.password v) (User.passwordHash user) then
        match update (User.id user)
                {| UpdateInput.displayName := None; UpdateInput.bio := None;
                   UpdateInput.avatar := None; UpdateInput.passwordHash := None;
                   UpdateInput.lastLoginAt := Some (now env);
                   UpdateInput.updatedAt := None |} env db1 with
        | (inr updatedUser, db2) =>
          (inr {| AuthResult.user := excludePassword updatedUser;
                  AuthResult.token :=
                    generateToken {| Payload.userId := User.id user;
                                     Payload.email := User.email user;
                                     Payload.role := User.role user |} (now env) |}, db2)
        | (inl e, db2) => (inl e, db2)
        end
      else (inl INVALID_CREDENTIALS, db1)
    end.
Proof.
  intros Hv. unfold login. run. rewrite Hv. cbv zeta.
  destruct (lookup_user ByEmail _ db) as [u|]; [|reflexivity].
  destruct (verifyPassword _ _); cbn [negb]; [|reflexivity]. run.
  destruct (update _ _ env _) as [[e|u'] db2]; reflexivity.
Qed.

(** C3 (as amended). For login calls whose input passes [loginSchema]:
    the call whose email is unknown to the store and the call whose email
    resolves but whose password does not verify fail with the same error
    value, code [INVALID_CREDENTIALS], the same message and no field, and
    neither changes the table. *)
Theorem login_failures_indistinguishable
    (data1 data2 : JsObject) (v1 v2 : LoginData.t) (env1 env2 : Env)
    (db1 db2 : Db) (u : User.t) :
  loginSchema data1 = inr v1 ->
  loginSchema data2 = inr v2 ->
  lookup_user ByEmail (LoginData.email v1) db1 = None ->
  lookup_user ByEmail (LoginData.email v2) db2 = Some u ->
  verifyPassword (LoginData.password v2) (User.passwordHash u) = false ->
  fst (login data1 env1 db1) = inl (AuthError "邮箱或密码错误" "INVALID_CREDENTIALS" None) /\
  fst (login data2 env2 db2) = inl (AuthError "邮箱或密码错误" "INVALID_CREDENTIALS" None) /\
  fst (login data1 env1 db1) = fst (login data2 env2 db2) /\
  users (snd (login data1 env1 db1)) = users db1 /\
  users (snd (login data2 env2 db2)) = users db2.
Proof.
  intros Hv1 Hv2 Hunknown Hknown Hwrong.
  rewrite (login_run _ _ _ _ Hv1), (login_run _ _ _ _ Hv2). cbv zeta.
  rewrite Hunknown, Hknown, Hwrong. repeat split.
Qed.



(** *** Profile updates *)

Lemma z_optional_string_inr (checks : list StrCheck) (path : string) (v : JsVal)
    (o : option string) :
  z_optional (z_string checks) path v = inr o -> parsed_as v o.
Proof.
  unfold z_optional.
  destruct v as [| |b|s|t|]; cbn; try discriminate; [intros [= <-]; reflexivity|].
  destruct (run_checks path checks s); [|discriminate].
  intros [= <-]. reflexivity.
Qed.

Lemma avatar_inr (path : string) (v : JsVal) (o : option string) :
  z_or (z_optional (z_string [check is_url "请输入有效的头像URL"])) z_literal_empty path v
    = inr o ->
  parsed_as v o.
Proof.
  unfold z_or.
  destruct (z_optional _ path v) as [l|a] eqn:Ha.
  - unfold z_literal_empty. destruct v as [| |b|[|c s]|t|]; try discriminate.
    intros [= <-]. reflexivity.
  - intros [= <-]. now apply z_optional_string_inr in Ha.
Qed.

Lemma updateProfileSchema_inr (data : JsObject) (v : UpdateProfileData.t) :
  updateProfileSchema data = inr v ->
  parsed_as (prop data "displayName") (UpdateProfileData.displayName v) /\
  parsed_as (prop data "bio") (UpdateProfileData.bio v) /\
  parsed_as (prop data "avatar") (UpdateProfileData.avatar v).
Proof.
  unfold updateProfileSchema. cbv zeta.
  destruct (z_optional _ "displayName" _) as [?|d] eqn:Hd; [discriminate|].
  destruct (z_optional _ "bio" _) as [?|b] eqn:Hb; [discriminate|].
  destruct (z_or _ _ "avatar" _) as [?|a] eqn:Ha; [discriminate|].
  intros [= <-]. cbn.
  apply z_optional_string_inr in Hd, Hb. apply avatar_inr in Ha. auto.
Qed.

Lemma parsed_as_unsupplied (data : JsObject) (k : string) (o : option string) :
  parsed_as (prop data k) o -> supplied data k = false -> o = None.
Proof.
  unfold supplied. destruct o as [s|]; [|reflexivity].
  cbn. intros ->. discriminate.
Qed.

Lemma parsed_as_supplied (data : JsObject) (k : string) (o : option string) (s : string) :
  parsed_as (prop data k) o -> prop data k = JStr s -> o = Some s.
Proof. destruct o as [s'|]; cbn; intros -> [=]; congruence. Qed.

Lemma lookup_map {A B : Type} (f : A -> B) (l : list A) (i : nat) :
  map f l !! i = f <$> l !! i.
Proof. revert i. induction l as [|a l IH]; intros [|i]; cbn; auto. Qed.

Lemma updateProfile_run (userId : string) (data : JsObject) (env : Env) (db : Db) :
  updateProfile userId data env db =
    match updateProfileSchema data with
    | inl l => (inl (ZodError l), db)
    | inr v =>
      match update userId
              {| UpdateInput.displayName := UpdateProfileData.displayName v;
                 UpdateInput.bio := UpdateProfileData.bio v;
                 UpdateInput.avatar := UpdateProfileData.avatar v;
                 UpdateInput.passwordHash := None;
                 UpdateInput.lastLoginAt := None;
                 UpdateInput.updatedAt := Some (now env) |} env db with
      | (inr updatedUser, db') => (inr (excludePassword updatedUser), db')
      | (inl e, db') => (inl e, db')
      end
    end.
Proof.
  unfold updateProfile. run. destruct (updateProfileSchema data) as [l|v]; [reflexivity|].
  destruct (update _ _ env db) as [[e|u] db']; reflexivity.
Qed.

(** C9. [updateProfile] leaves every row in place; in the row it addresses
    it writes, among [displayName], [bio] and [avatar], the supplied ones
    only (with the supplied value), and it changes neither the id, the
    email, the username, the role nor the credential (nor any other column
    but the [updatedAt] stamp); every other row is as before. *)
Theorem updateProfile_writes_supplied_fields_only
    (userId : string) (data : JsObject) (env : Env) (db : Db) :
  let db' := snd (updateProfile userId data env db) in
  length (users db') = length (users db) /\
  forall (i : nat) (u : User.t), users db !! i = Some u ->
    exists u', users db' !! i = Some u' /\
      (User.id u' = User.id u /\ User.email u' = User.email u /\
       User.username u' = User.username u /\ User.role u' = User.role u /\
       User.passwordHash u' = User.passwordHash u) /\
      (User.isEmailVerified u' = User.isEmailVerified u /\
       User.lastLoginAt u' = User.lastLoginAt u /\
       User.createdAt u' = User.createdAt u) /\
      (supplied data "displayName" = false -> User.displayName u' = User.displayName u) /\
      (supplied data "bio" = false -> User.bio u' = User.bio u) /\
      (supplied data "avatar" = false -> User.avatar u' = User.avatar u) /\
      (User.id u <> userId -> u' = u) /\
      (forall o, fst (updateProfile userId data env db) = inr o -> User.id u = userId ->
         (forall s, prop data "displayName" = JStr s -> User.displayName u' = s) /\
         (forall s, prop data "bio" = JStr s -> User.bio u' = Some s) /\
         (forall s, prop data "avatar" = JStr s -> User.avatar u' = Some s)).
Proof.
  cbv zeta. rewrite updateProfile_run.
  destruct (updateProfileSchema data) as [l|v] eqn:Hv; cbn [fst snd].
  { split; [reflexivity|]. intros i u Hu. exists u. repeat split; auto; try discriminate. }
  apply updateProfileSchema_inr in Hv as (Hd & Hb & Ha).
  unfold update. destruct (lookup_user ById userId db) as [u0|]; cbn [fst snd users record_query].
  2:{ split; [reflexivity|]. intros i u Hu. exists u. repeat split; auto; try discriminate. }
  split; [apply length_map|].
  intros i u Hu. rewrite lookup_map, Hu. cbn [fmap option_fmap option_map].
  destruct (String.eqb_spec (User.id u) userId) as [Hid|Hid].
  2:{ exists u. repeat split; auto; intros; contradiction. }
  eexists. split; [reflexivity|]. unfold written. cbn.
  split; [repeat split|]. split; [repeat split|].
  split; [intros Hs; now rewrite (parsed_as_unsupplied _ _ _ Hd Hs)|].
  split; [intros Hs; now rewrite (parsed_as_unsupplied _ _ _ Hb Hs)|].
  split; [intros Hs; now rewrite (parsed_as_unsupplied _ _ _ Ha Hs)|].
  split; [intros; contradiction|].
  intros o _ _. repeat split; intros s Hs.
  - now rewrite (parsed_as_supplied _ _ _ _ Hd Hs).
  - now rewrite (parsed_as_supplied _ _ _ _ Hb Hs).
  - now rewrite (parsed_as_supplied _ _ _ _ Ha Hs).
Qed.

(** *** Changing the password *)





Lemma prop_credentials (email password : string) :
  prop (credentials email password) "email" = JStr email /\
  prop (credentials email password) "password" = JStr password /\
  prop (credentials email password) "rememberMe" = JUndefined.
Proof.
  unfold prop, credentials. repeat split.
Qed.

Lemma loginSchema_credentials (email password : string) :
  is_email email = true -> (1 <= String.length password)%nat ->
  loginSchema (credentials email password) = inr (LoginData.mk email password None).
Proof.
  intros He Hp. unfold loginSchema.
  destruct (prop_credentials email password) as (-> & -> & ->). cbv zeta.
  assert (z_string [check is_email "请输入有效的邮箱地址"] "email" (JStr email) = inr email) as ->.
  { apply z_string_inr. split; [reflexivity|]. cbn [forallb test]. now rewrite He. }
  assert (z_string [check (str_min 1) "请输入密码"] "password" (JStr password) = inr password) as ->.
  { apply z_string_inr. split; [reflexivity|]. cbn [forallb test]. unfold str_min.
    apply Nat.leb_le in Hp. now rewrite Hp. }
  reflexivity.
Qed.



(** *** The invariant of the store *)

Lemma update_emails (id : string) (d : UpdateInput.t) (env : Env) (db : Db) :
  emails (snd (update id d env db)) = emails db.
Proof.
  unfold update, emails. destruct (lookup_user ById id db); cbn [snd users record_query];
    [|reflexivity].
  rewrite map_map. apply map_ext. intros r.
  now destruct (String.eqb (User.id r) id).
Qed.

Lemma login_emails (data : JsObject) (env : Env) (db : Db) :
  emails (snd (login data env db)) = emails db.
Proof.
  destruct (loginSchema data) as [l|v] eqn:Hv.
  { unfold login. run. now rewrite Hv. }
  rewrite (login_run _ _ _ _ Hv). cbv zeta.
  destruct (lookup_user ByEmail _ db) as [u|]; [|reflexivity].
  destruct (verifyPassword _ _); [|reflexivity].
  pose proof (update_emails (User.id u)
                {| UpdateInput.displayName := None; UpdateInput.bio := None;
                   UpdateInput.avatar := None; UpdateInput.passwordHash := None;
                   UpdateInput.lastLoginAt := Some (now env);
                   UpdateInput.updatedAt := None |} env
                (record_query (FindUnique ByEmail (LoginData.email v)) db)) as Hupd.
  destruct (update _ _ env _) as [[e|u'] db2]; exact Hupd.
Qed.

Lemma updateProfile_emails (userId : string) (data : JsObject) (env : Env) (db : Db) :
  emails (snd (updateProfile userId data env db)) = emails db.
Proof.
  rewrite updateProfile_run. destruct (updateProfileSchema data) as [l|v]; [reflexivity|].
  pose proof (update_emails userId
                {| UpdateInput.displayName := UpdateProfileData.displayName v;
                   UpdateInput.bio := UpdateProfileData.bio v;
                   UpdateInput.avatar := UpdateProfileData.avatar v;
                   UpdateInput.passwordHash := None;
                   UpdateInput.lastLoginAt := None;
                   UpdateInput.updatedAt := Some (now env) |} env db) as Hupd.
  destruct (update _ _ env db) as [[e|u'] db2]; exact Hupd.
Qed.

Lemma changePassword_emails (userId : string) (data : JsObject) (env : Env) (db : Db) :
  emails (snd (changePassword userId data env db)) = emails db.
Proof.
  unfold changePassword. run.
  destruct (changePasswordSchema data) as [l|v]; [reflexivity|].
  destruct (lookup_user ById userId db) as [u|]; [|reflexivity].
  destruct (negb _); [reflexivity|]. run.
  pose proof (update_emails userId
                (password_update (hashPassword (ChangePasswordData.newPassword v) env) env)
                env (record_query (FindUnique ById userId) db)) as Hupd.
  unfold password_update in Hupd.
  destruct (update _ _ env _) as [[e|u'] db2]; exact Hupd.
Qed.

(** A registration adds at most one email, which is new to the table and
    has passed [registerSchema]. *)
Lemma register_emails (data : JsObject) (env : Env) (db : Db) :
  emails (snd (register data env db)) = emails db \/
  exists v, registerSchema data = inr v /\
            lookup_user ByEmail (RegisterData.email v) db = None /\
            emails (snd (register data env db)) = (emails db ++ [RegisterData.email v])%list.
Proof.
  unfold register. run.
  destruct (registerSchema data) as [l|v] eqn:Hv; [now left|].
  destruct (lookup_user ByEmail _ db) as [ue|] eqn:He; cbn [is_found]; [now left|].
  destruct (is_found (lookup_user ByUsername _ _)); [now left|].
  unfold create. cbn [users record_query queries CreateInput.email].
  destruct (existsb _ (users db)); [now left|].
  right. exists v. split; [reflexivity|]. split; [exact He|].
  unfold emails. cbn [snd users record_query]. now rewrite map_app.
Qed.

Lemma lookup_email_None (e : string) (db : Db) :
  lookup_user ByEmail e db = None -> e ∉ emails db.
Proof.
  intros Hnone Hin. unfold emails in Hin. rewrite list_elem_of_In, in_map_iff in Hin.
  destruct Hin as (u & <- & Hu).
  pose proof (find_none _ _ Hnone u Hu) as Hneq. cbn in Hneq.
  now rewrite String.eqb_refl in Hneq.
Qed.

(** Every operation of the service keeps the store well formed, whatever
    its outcome. *)
Lemma service_keeps_store_well_formed
    (userId : string) (data : JsObject) (env : Env) (db : Db) :
  well_formed_store db ->
  well_formed_store (snd (register data env db)) /\
  well_formed_store (snd (login data env db)) /\
  well_formed_store (snd (updateProfile userId data env db)) /\
  well_formed_store (snd (changePassword userId data env db)).
Proof.
  intros [Hnd Hok]. unfold well_formed_store.
  rewrite login_emails, updateProfile_emails, changePassword_emails.
  split; [|auto].
  destruct (register_emails data env db) as [->|(v & Hv & Hfresh & ->)]; [auto|].
  apply registerSchema_inr in Hv as ((_ & Hmail) & _).
  apply lookup_email_None in Hfresh. split.
  - apply NoDup_app. repeat split; [assumption | | apply NoDup_singleton].
    intros e He Hin. apply list_elem_of_singleton in Hin. now subst.
  - apply Forall_app. split; [assumption|]. now constructor.
Qed.


(** *** The updated-at stamp *)



(** [login] writes [lastLoginAt] alone: unless the schema makes the client
    fill [updatedAt], every row keeps the stamp it had. *)
Lemma login_keeps_updatedAt (data : JsObject) (env : Env) (db db' : Db)
    (r : AuthResult.t) :
  schema_updatedAt = false ->
  login data env db = (inr r, db') ->
  map User.updatedAt (users db') = map User.updatedAt (users db).
Proof.
  intros Hschema. unfold login. run.
  destruct (loginSchema data) as [l|v]; [discriminate|].
  destruct (lookup_user ByEmail _ db) as [u|]; [|discriminate].
  destruct (negb _); [discriminate|]. run.
  unfold update. cbn [users record_query].
  destruct (lookup_user ById _ _) as [u0|]; [|discriminate].
  intros [= _ <-]. cbn [users]. rewrite map_map. apply map_ext.
  intros a. destruct (String.eqb (User.id a) (User.id u)); [|reflexivity].
  cbn. now rewrite Hschema.
Qed.

End ServiceProperties.

(** * The service on concrete inputs *)

Section Runs.
Import Demo.
#[local] Existing Instances validators bcrypt jws config.


(** The token issued to [alice] at 1000000 ms, read back by the codec, is
    refused by [verifyToken] at that same instant. *)
Lemma issued_token_is_rejected_witness :
  jws_open (generateToken alice 1000000)
    = Some (signed_content alice JWT_EXPIRES_IN 1000000, JWT_SECRET) /\
  verifyToken (generateToken alice 1000000) 1000000 = inl INVALID_TOKEN.
Proof.
  assert (Hopen : jws_open (generateToken alice 1000000)
                  = Some (signed_content alice JWT_EXPIRES_IN 1000000, JWT_SECRET))
    by reflexivity.
  split; [exact Hopen|].
  exact (proj2 (proj2 (issued_token_is_rejected alice 1000000 1000000 Hopen))).
Defined.

Lemma verifyToken_collapses_failures_witness :
  all_checks_pass "tagged.alice.token" 1000000 tagged_claims /\
  verifyToken "tagged.alice.token" 1000000 = inr tagged_claims /\
  verifyToken "tagged.alice.forged" 1000000 = inl INVALID_TOKEN /\
  verifyToken "not a token" 1000000 = inl INVALID_TOKEN /\
  verifyToken "tagged.alice.token" 605800000 = inl INVALID_TOKEN.
Proof.
  assert (Hvalid : verifyToken "tagged.alice.token" 1000000 = inr tagged_claims)
    by reflexivity.
  pose proof (verifyToken_collapses_failures "tagged.alice.token" 1000000)
    as (Hiff & _).
  pose proof (verifyToken_collapses_failures "tagged.alice.forged" 1000000)
    as (_ & _ & _ & _ & Hforged).
  pose proof (verifyToken_collapses_failures "not a token" 1000000)
    as (_ & _ & _ & Hmalformed & _).
  pose proof (verifyToken_collapses_failures "tagged.alice.token" 605800000)
    as (_ & _ & _ & _ & Hexpired).
  split; [apply Hiff; exact Hvalid|].
  split; [exact Hvalid|].
  split; [apply (Hforged tagged_claims "another-key"); [reflexivity | left; discriminate]|].
  split; [apply Hmalformed; reflexivity|].
  apply (Hexpired tagged_claims JWT_SECRET); [reflexivity|].
  right. right. right. exists 605800. split; [reflexivity | vm_compute; discriminate].
Defined.

Lemma access_gate_failures_witness :
  authenticateToken {| authorization := None; user := None |} 1000000
    = respond 401 "NO_TOKEN" "请提供认证token" /\
  authenticateToken (with_header "Bearer tagged.alice.token") 605800000
    = respond 401 "INVALID_TOKEN" "Token无效或已过期" /\
  (exists req', authenticateToken (with_header "Bearer tagged.alice.token") 1000000
                  = next req' /\
                requireAdmin req' = respond 403 "INSUFFICIENT_PERMISSIONS" "权限不足") /\
  requireAdmin (with_header "Bearer tagged.alice.token")
    = respond 401 "NOT_AUTHENTICATED" "请先登录".
Proof.
  pose proof (access_gate_failures {| authorization := None; user := None |}
                1000000 ["ADMIN"]) as (Hnone & _).
  pose proof (access_gate_failures (with_header "Bearer tagged.alice.token")
                605800000 ["ADMIN"]) as (_ & Hexpired & _).
  pose proof (access_gate_failures (with_header "Bearer tagged.alice.token")
                1000000 ["ADMIN"]) as (_ & _ & Hrole & Hanon).
  split; [apply Hnone; exact I|].
  split.
  { apply (Hexpired "tagged.alice.token"); [reflexivity | discriminate |].
    apply verifyToken_fails_iff. reflexivity. }
  split.
  { apply (Hrole "tagged.alice.token" tagged_claims); [reflexivity | discriminate | |].
    - apply verifyToken_inr. reflexivity.
    - cbn. intros [[=]|[]]. }
  apply Hanon. reflexivity.
Defined.

Lemma returned_account_has_no_credential_witness :
  match register (registration "b@x.com" "bob" (JBool true)) env0 db0 with
  | (inr r, _) => AuthResult.user r !! "passwordHash" = None
  | _ => False
  end /\
  match login (credentials "a@x.com" "secret1") env0 db0 with
  | (inr r, _) => AuthResult.user r !! "passwordHash" = None
  | _ => False
  end /\
  match getCurrentUser "u1" db0 with
  | (inr o, _) => o !! "passwordHash" = None
  | _ => False
  end /\
  match updateProfile "u1" (object [("bio", JStr "hello")]) env0 db0 with
  | (inr o, _) => o !! "passwordHash" = None
  | _ => False
  end.
Proof.
  split; [|split; [|split]].
  - destruct (register _ env0 db0) as [[e|r] db'] eqn:E; [vm_compute in E; discriminate|].
    exact (proj1 (returned_account_has_no_credential _ "u1" env0 db0 db') r E).
  - destruct (login _ env0 db0) as [[e|r] db'] eqn:E; [vm_compute in E; discriminate|].
    exact (proj1 (proj2 (returned_account_has_no_credential _ "u1" env0 db0 db')) r E).
  - destruct (getCurrentUser "u1" db0) as [[e|o] db'] eqn:E; [vm_compute in E; discriminate|].
    exact (proj1 (proj2 (proj2 (returned_account_has_no_credential ∅ "u1" env0 db0 db'))) o E).
  - destruct (updateProfile "u1" _ env0 db0) as [[e|o] db'] eqn:E;
      [vm_compute in E; discriminate|].
    exact (proj2 (proj2 (proj2 (returned_account_has_no_credential _ "u1" env0 db0 db'))) o E).
Defined.

(** C3, as stated, fails: the email is unknown to the store, and the call
    fails with a validation error, not with [INVALID_CREDENTIALS]. *)
Lemma login_unknown_email_counterexample :
  lookup_user ByEmail "ghost@x.com" db0 = None /\
  login (credentials "ghost@x.com" "") env0 db0
    = (inl (ZodError [check_failed "password" "请输入密码"]), db0).
Proof. split; reflexivity. Qed.

Lemma login_failures_indistinguishable_witness :
  fst (login (credentials "ghost@x.com" "secret1") env0 db0)
    = inl (AuthError "邮箱或密码错误" "INVALID_CREDENTIALS" None) /\
  fst (login (credentials "a@x.com" "wrong") env0 db0)
    = inl (AuthError "邮箱或密码错误" "INVALID_CREDENTIALS" None).
Proof.
  pose proof (login_failures_indistinguishable
                (credentials "ghost@x.com" "secret1") (credentials "a@x.com" "wrong")
                (LoginData.mk "ghost@x.com" "secret1" None)
                (LoginData.mk "a@x.com" "wrong" None)
                env0 env0 db0 db0 alice_row
                eq_refl eq_refl eq_refl eq_refl eq_refl) as (H1 & H2 & _).
  split; assumption.
Defined.





Lemma updateProfile_writes_supplied_fields_only_witness :
  exists u', users (snd (updateProfile "u1" (object [("bio", JStr "hello")]) env0 db0)) !! 0%nat
               = Some u' /\
    User.email u' = "a@x.com" /\ User.role u' = "USER" /\
    User.passwordHash u' = "$2a$12$secret1" /\
    User.displayName u' = "Alice" /\ User.avatar u' = None /\
    User.bio u' = Some "hello".
Proof.
  pose proof (updateProfile_writes_supplied_fields_only
                "u1" (object [("bio", JStr "hello")]) env0 db0) as [_ Hrows].
  destruct (Hrows 0%nat alice_row eq_refl)
    as (u' & Hu' & (_ & Hemail & _ & Hrole & Hhash) & _ & Hname & _ & Havatar & _ & Hsupplied).
  assert (Hok : exists o, fst (updateProfile "u1" (object [("bio", JStr "hello")]) env0 db0)
                          = inr o) by (eexists; vm_compute; reflexivity).
  destruct Hok as [o Hok].
  destruct (Hsupplied o Hok eq_refl) as (_ & Hbio & _).
  exists u'. split; [exact Hu'|].
  split; [exact Hemail|]. split; [exact Hrole|]. split; [exact Hhash|].
  split; [apply Hname; reflexivity|]. split; [apply Havatar; reflexivity|].
  apply Hbio. reflexivity.
Defined.



End Runs.


(** * Further properties of the access gate *)

Section GatePasses.
Context `{Jws} `{Config}.

Lemma authenticateToken_absent (req : Request) (now : Z) :
  no_token (bearerToken (authorization req)) = true ->
  authenticateToken req now = respond 401 "NO_TOKEN" "请提供认证token".
Proof. intros Hno. unfold authenticateToken. now rewrite Hno. Qed.

(** A header either carries no bearer credential or a non-empty token. *)
Lemma bearer_cases (authHeader : option string) :
  no_token (bearerToken authHeader) = true \/
  exists t, bearerToken authHeader = Some t /\ t <> "".
Proof.
  destruct (bearerToken authHeader) as [t|] eqn:Hb; cbn; [|now left].
  destruct (String.eqb_spec t "") as [->|Hne]; [now left | right; eauto].
Qed.

(** X1. [authenticateToken] hands a call on exactly when its header carries
    a non-empty bearer token that passes every check of [verifyToken], and
    then the call carries the identity of that token (and its header
    unchanged); every answer it gives itself is a 401, with code [NO_TOKEN]
    when there is no bearer credential and [INVALID_TOKEN] otherwise: the
    [SERVER_ERROR] branch is never taken. *)
Theorem authenticateToken_passes_iff (req : Request) (now : Z) :
  (forall req', authenticateToken req now = next req' <->
     exists t c, bearerToken (authorization req) = Some t /\ t <> "" /\
                 all_checks_pass t now c /\
                 authorization req' = authorization req /\
                 user req' = Some {| Identity.userId := Payload.userId (payload c);
                                     Identity.email := Payload.email (payload c);
                                     Identity.role := Payload.role (payload c) |}) /\
  (forall status code message, authenticateToken req now = respond status code message ->
     status = 401 /\
     (code = "NO_TOKEN" /\ no_bearer_credential (authorization req) \/
      code = "INVALID_TOKEN" /\ ~ no_bearer_credential (authorization req))).
Proof.
  destruct (bearer_cases (authorization req)) as [Hno|(t & Hb & Hne)].
  - rewrite (authenticateToken_absent _ _ Hno). split.
    + intros req'. split; [discriminate|].
      intros (t & c & Hb & Hne & _). rewrite Hb in Hno. cbn in Hno.
      apply String.eqb_eq in Hno. contradiction.
    + intros status code message [= <- <- _]. split; [reflexivity|].
      left. split; [reflexivity | now apply no_token_iff].
  - rewrite (authenticateToken_present _ _ _ Hb Hne).
    destruct (verifyToken t now) as [e|c] eqn:Hv.
    + split.
      * intros req'. split; [discriminate|].
        intros (t' & c & Hb' & _ & Hok & _). rewrite Hb in Hb'. injection Hb' as <-.
        apply verifyToken_inr in Hok. congruence.
      * intros status code message [= <- <- _]. split; [reflexivity|].
        right. split; [reflexivity|]. rewrite <- no_token_iff, Hb. cbn.
        destruct (String.eqb_spec t ""); [contradiction | discriminate].
    + split; [|discriminate].
      intros req'. split.
      * intros [= <-]. exists t, c. apply verifyToken_inr in Hv.
        split; [exact Hb|]. split; [exact Hne|]. split; [exact Hv|]. split; reflexivity.
      * intros (t' & c' & Hb' & _ & Hok & Hauth & Huser).
        rewrite Hb in Hb'. injection Hb' as <-.
        apply verifyToken_inr in Hok. rewrite Hv in Hok. injection Hok as <-.
        destruct req' as [a u]. cbn in Hauth, Huser. subst. reflexivity.
Qed.

(** X2. [optionalAuth] never answers a call: where [authenticateToken]
    would hand the call on, it hands on the same call with the same
    identity; where [authenticateToken] would answer 401, it hands the call
    on as it came. *)
Theorem optionalAuth_never_rejects (req : Request) (now : Z) :
  optionalAuth req now =
    match authenticateToken req now with
    | next req' => next req'
    | respond _ _ _ => next req
    end.
Proof.
  destruct (bearer_cases (authorization req)) as [Hno|(t & Hb & Hne)].
  - rewrite (authenticateToken_absent _ _ Hno). unfold optionalAuth. now rewrite Hno.
  - rewrite (authenticateToken_present _ _ _ Hb Hne).
    unfold optionalAuth. rewrite Hb. cbn.
    destruct (String.eqb_spec t ""); [contradiction|].
    now destruct (verifyToken t now).
Qed.
End GatePasses.

(** X3. [requireRole roles] hands a call on, unchanged, exactly when an
    identity is attached whose role is one of [roles]; hence a gate with
    more roles lets through whatever a gate with fewer does, and every call
    that passes [requireAdmin] passes [requireEditor]. *)
Theorem requireRole_passes_iff (roles : list string) (req : Request) :
  (forall req', requireRole roles req = next req' <->
     req' = req /\ exists u, user req = Some u /\ In (Identity.role u) roles) /\
  (forall roles', (forall r, In r roles -> In r roles') ->
     requireRole roles req = next req -> requireRole roles' req = next req) /\
  (requireAdmin req = next req -> requireEditor req = next req).
Proof.
  assert (Hiff : forall rs req', requireRole rs req = next req' <->
            req' = req /\ exists u, user req = Some u /\ In (Identity.role u) rs).
  { intros rs req'. unfold requireRole. destruct (user req) as [u|].
    - destruct (existsb _ rs) eqn:Hex; cbn [negb].
      + apply existsb_exists in Hex as (r & Hin & Heq). apply String.eqb_eq in Heq.
        subst r. split; [intros [= <-]; eauto | intros [-> _]; reflexivity].
      + split; [discriminate|]. intros (_ & u' & [= <-] & Hin).
        assert (existsb (String.eqb (Identity.role u)) rs = true) as Htrue.
        { apply existsb_exists. exists (Identity.role u).
          split; [assumption | apply String.eqb_refl]. }
        congruence.
    - split; [discriminate | intros (_ & u & [=] & _)]. }
  assert (Hmono : forall rs rs', (forall r, In r rs -> In r rs') ->
            requireRole rs req = next req -> requireRole rs' req = next req).
  { intros rs rs' Hsub Hpass. apply Hiff in Hpass as (_ & u & Hu & Hin).
    apply Hiff. split; [reflexivity|]. exists u. auto. }
  split; [apply Hiff|]. split; [apply Hmono|].
  apply Hmono. intros r [<-|[]]. right. now left.
Qed.

(** * Further properties of the account service *)

Section ServiceOutcomes.
Context `{Validators} `{Bcrypt} `{Jws} `{Config}.

Ltac step :=
  unfold bind, parse, ret, throw, findUnique in *; cbn [fst snd] in *.

(** A row clashes with none of the table exactly when its three unique
    columns are new to it. *)
Lemma no_clash_iff (u : User.t) (db : Db) :
  existsb (clashes u) (users db) = false <->
  lookup_user ById (User.id u) db = None /\
  lookup_user ByEmail (User.email u) db = None /\
  lookup_user ByUsername (User.username u) db = None.
Proof.
  unfold lookup_user. induction (users db) as [|a l IH]; cbn; [tauto|].
  unfold clashes at 1.
  destruct (String.eqb (User.id a) (User.id u));
    [cbn; split; [discriminate | intros [[=] _]]|].
  destruct (String.eqb (User.email a) (User.email u));
    [cbn; split; [discriminate | intros (_ & [=] & _)]|].
  destruct (String.eqb (User.username a) (User.username u));
    [cbn; split; [discriminate | intros (_ & _ & [=])]|].
  exact IH.
Qed.



Lemma find_app_last {A : Type} (p : A -> bool) (l : list A) (a : A) :
  find p l = None -> p a = true -> find p (l ++ [a]) = Some a.
Proof.
  intros Hnone Ha. induction l as [|b l IH]; cbn in *; [now rewrite Ha|].
  destruct (p b); [discriminate | now apply IH].
Qed.

(** What a successful [register] did. *)
Lemma register_inr (data : JsObject) (env : Env) (db db' : Db) (r : AuthResult.t) :
  register data env db = (inr r, db') ->
  exists v u,
    registerSchema data = inr v /\
    existsb (clashes u) (users db) = false /\
    users db' = (users db ++ [u])%list /\
    User.id u = cuid env /\
    User.email u = RegisterData.email v /\
    User.passwordHash u = hashPassword (RegisterData.password v) env /\
    User.role u = "USER".
Proof.
  unfold register. step.
  destruct (registerSchema data) as [l|v] eqn:Hv; [discriminate|].
  destruct (lookup_user ByEmail _ db); cbn [is_found]; [discriminate|].
  destruct (is_found (lookup_user ByUsername _ _)); [discriminate|].
  unfold create. cbn [users record_query].
  match goal with |- context [existsb (clashes ?row) _] => set (u := row) end.
  destruct (existsb (clashes u) (users db)) eqn:Hfresh; [discriminate|].
  intros [= _ <-]. exists v, u. repeat split; assumption || reflexivity.
Qed.

(** X5. Registration and login compose: with a credential manager that
    accepts a password against its own hash, after a successful [register]
    a login with the registered email and password succeeds, and its token
    is issued for the account just created (its id, its email, the role
    [USER]). *)
Theorem register_then_login
    (data : JsObject) (v : RegisterData.t) (env env' : Env) (db db' : Db)
    (r : AuthResult.t) :
  (forall p n s, bcrypt_compare p (bcrypt_hash p n s) = true) ->
  registerSchema data = inr v ->
  register data env db = (inr r, db') ->
  exists r' db'',
    login (credentials (RegisterData.email v) (RegisterData.password v)) env' db'
      = (inr r', db'') /\
    AuthResult.token r' =
      generateToken {| Payload.userId := cuid env;
                       Payload.email := RegisterData.email v;
                       Payload.role := "USER" |} (now env').
Proof.
  intros Hsame Hv Hreg.
  apply register_inr in Hreg as (v' & u & Hv' & Hfresh & Husers & Hid & Hemail & Hhash & Hrole).
  rewrite Hv in Hv'. injection Hv' as <-.
  apply no_clash_iff in Hfresh as (Hnoid & Hnoemail & _).
  apply registerSchema_inr in Hv as ((_ & Hmail) & _ & _ & (_ & Hlen) & _).
  assert (Hlen1 : (1 <= String.length (RegisterData.password v))%nat) by lia.
  rewrite (login_run _ _ _ _ (loginSchema_credentials _ _ Hmail Hlen1)).
  cbv zeta. cbn [LoginData.email LoginData.password].
  assert (Hrow : lookup_user ByEmail (RegisterData.email v) db' = Some u).
  { unfold lookup_user. rewrite Husers. apply find_app_last.
    - rewrite <- Hemail. exact Hnoemail.
    - cbn. rewrite Hemail. apply String.eqb_refl. }
  rewrite Hrow. unfold verifyPassword. rewrite Hhash. unfold hashPassword. rewrite Hsame.
  unfold update. unfold lookup_user at 1. cbn [users record_query column].
  rewrite Husers. rewrite (find_app_last _ _ u); [| exact Hnoid | cbn; apply String.eqb_refl].
  eexists _, _. split; [reflexivity|]. cbn. now rewrite Hid, Hemail, Hrole.
Qed.

(** X6. A login with a known email and a password that verifies succeeds:
    its token is issued for the id, email and role of the account, the
    account it returns shows the time of this login as [lastLoginAt], and
    in the table the rows of that id get this [lastLoginAt] while no other
    column but the [updatedAt] stamp, and no other row, changes. *)
Theorem login_records_last_login
    (data : JsObject) (v : LoginData.t) (env : Env) (db : Db) (u : User.t) :
  loginSchema data = inr v ->
  lookup_user ByEmail (LoginData.email v) db = Some u ->
  bcrypt_compare (LoginData.password v) (User.passwordHash u) = true ->
  exists r db',
    login data env db = (inr r, db') /\
    AuthResult.token r =
      generateToken {| Payload.userId := User.id u;
                       Payload.email := User.email u;
                       Payload.role := User.role u |} (now env) /\
    AuthResult.user r !! "lastLoginAt" = Some (JDate (now env)) /\
    length (users db') = length (users db) /\
    forall (i : nat) (row : User.t), users db !! i = Some row ->
      exists row', users db' !! i = Some row' /\
        (User.id row <> User.id u -> row' = row) /\
        (User.id row = User.id u -> User.lastLoginAt row' = Some (now env)) /\
        User.id row' = User.id row /\ User.email row' = User.email row /\
        User.username row' = User.username row /\
        User.displayName row' = User.displayName row /\
        User.passwordHash row' = User.passwordHash row /\
        User.role row' = User.role row /\ User.bio row' = User.bio row /\
        User.avatar row' = User.avatar row /\
        User.isEmailVerified row' = User.isEmailVerified row /\
        User.createdAt row' = User.createdAt row.
Proof.
  intros Hv Hu Hpw. rewrite (login_run _ _ _ _ Hv). cbv zeta.
  rewrite Hu. unfold verifyPassword. rewrite Hpw.
  pose proof (find_some _ _ Hu) as [Hin _].
  unfold update. unfold lookup_user at 1. cbn [users record_query column].
  destruct (find (fun r => String.eqb (User.id r) (User.id u)) (users db)) as [u0|] eqn:Hid.
  2:{ pose proof (find_none _ _ Hid u Hin) as Hneq. cbn in Hneq.
      now rewrite String.eqb_refl in Hneq. }
  eexists _, _. split; [reflexivity|]. cbn [AuthResult.token AuthResult.user users].
  split; [reflexivity|]. split; [reflexivity|]. split; [apply length_map|].
  intros i row Hrow. rewrite lookup_map, Hrow. cbn [fmap option_fmap option_map].
  destruct (String.eqb_spec (User.id row) (User.id u)) as [Heq|Hne].
  - eexists. split; [reflexivity|]. cbn. repeat split. intros; contradiction.
  - exists row. repeat split. intros; contradiction.
Qed.

(** X7. An operation of the service that fails has written nothing: after
    a failed [register], [login], [updateProfile] or [changePassword] the
    table is as it was, and [getCurrentUser] never changes it. *)
Theorem failed_operation_writes_nothing
    (userId : string) (data : JsObject) (env : Env) (db : Db) :
  (forall e, fst (register data env db) = inl e ->
             users (snd (register data env db)) = users db) /\
  (forall e, fst (login data env db) = inl e ->
             users (snd (login data env db)) = users db) /\
  (forall e, fst (updateProfile userId data env db) = inl e ->
             users (snd (updateProfile userId data env db)) = users db) /\
  (forall e, fst (changePassword userId data env db) = inl e ->
             users (snd (changePassword userId data env db)) = users db) /\
  users (snd (getCurrentUser userId db)) = users db.
Proof.
  split; [|split; [|split; [|split]]].
  - intros e. unfold register. step.
    destruct (registerSchema data) as [l|v]; [reflexivity|].
    destruct (is_found (lookup_user ByEmail _ db)); [reflexivity|].
    destruct (is_found (lookup_user ByUsername _ _)); [reflexivity|].
    unfold create. destruct (existsb _ _); [reflexivity | discriminate].
  - intros e. destruct (loginSchema data) as [l|v] eqn:Hv.
    { unfold login. step. now rewrite Hv. }
    rewrite (login_run _ _ _ _ Hv). cbv zeta.
    destruct (lookup_user ByEmail _ db) as [u|]; [|reflexivity].
    destruct (verifyPassword _ _); [|reflexivity].
    unfold update. destruct (lookup_user ById _ _); [discriminate | reflexivity].
  - intros e. rewrite updateProfile_run.
    destruct (updateProfileSchema data) as [l|v]; [reflexivity|].
    unfold update. destruct (lookup_user ById _ _); [discriminate | reflexivity].
  - intros e. unfold changePassword. step.
    destruct (changePasswordSchema data) as [l|v]; [reflexivity|].
    destruct (lookup_user ById userId db) as [u|]; [|reflexivity].
    destruct (negb _); [reflexivity|]. step.
    unfold update. destruct (lookup_user ById _ _); [discriminate | reflexivity].
  - unfold getCurrentUser. step. now destruct (lookup_user ById userId db).
Qed.


Lemma changePassword_run (userId : string) (data : JsObject) (v : ChangePasswordData.t)
    (env : Env) (db : Db) :
  changePasswordSchema data = inr v ->
  changePassword userId data env db =
    let db1 := record_query (FindUnique ById userId) db in
    match lookup_user ById userId db with
    | None => (inl (AuthError "用户不存在" "USER_NOT_FOUND" None), db1)
    | Some user =>
      if verifyPassword (ChangePasswordData.oldPassword v) (User.passwordHash user) then
        match update userId
                (password_update (hashPassword (ChangePasswordData.newPassword v) env) env)
                env db1 with
        | (inr _, db2) => (inr tt, db2)
        | (inl e, db2) => (inl e, db2)
        end
      else (inl (AuthError "当前密码错误" "INVALID_PASSWORD" None), db1)
    end.
Proof.
  intros Hv. unfold changePassword. step. rewrite Hv. cbv zeta.
  destruct (lookup_user ById userId db) as [u|]; [|reflexivity].
  destruct (verifyPassword _ _); cbn [negb]; [|reflexivity]. step.
  unfold password_update. destruct (update _ _ env _) as [[e|u'] db2]; reflexivity.
Qed.


(** X9. [getUserByToken] answers a token that does not verify with
    [INVALID_TOKEN] before any call to the store, and a token that verifies
    with what [getCurrentUser] returns for the account id the token
    carries: that account without its credential, or [USER_NOT_FOUND] when
    no row has this id any more. *)
Theorem getUserByToken_outcomes (token : string) (env : Env) (db : Db) :
  ((~ exists c, all_checks_pass token (now env) c) ->
     getUserByToken token env db = (inl INVALID_TOKEN, db)) /\
  (forall c, all_checks_pass token (now env) c ->
     getUserByToken token env db = getCurrentUser (Payload.userId (payload c)) db /\
     match lookup_user ById (Payload.userId (payload c)) db with
     | Some u => fst (getUserByToken token env db) = inr (excludePassword u)
     | None => fst (getUserByToken token env db)
                 = inl (AuthError "用户不存在" "USER_NOT_FOUND" None)
     end).
Proof.
  split.
  - intros Hbad. apply verifyToken_fails_iff in Hbad.
    unfold getUserByToken. now rewrite Hbad.
  - intros c Hok. apply verifyToken_inr in Hok.
    unfold getUserByToken. rewrite Hok. split; [reflexivity|].
    unfold getCurrentUser. step.
    now destruct (lookup_user ById _ db).
Qed.



(** *** The unique columns *)

Lemma update_columns (f : UniqueField) (id : string) (d : UpdateInput.t) (env : Env)
    (db : Db) :
  map (column f) (users (snd (update id d env db))) = map (column f) (users db).
Proof.
  unfold update. destruct (lookup_user ById id db); cbn [snd users record_query];
    [|reflexivity].
  rewrite map_map. apply map_ext. intros r.
  destruct (String.eqb (User.id r) id); [now destruct f | reflexivity].
Qed.

Lemma login_columns (f : UniqueField) (data : JsObject) (env : Env) (db : Db) :
  map (column f) (users (snd (login data env db))) = map (column f) (users db).
Proof.
  destruct (loginSchema data) as [l|v] eqn:Hv.
  { unfold login. step. now rewrite Hv. }
  rewrite (login_run _ _ _ _ Hv). cbv zeta.
  destruct (lookup_user ByEmail _ db) as [u|]; [|reflexivity].
  destruct (verifyPassword _ _); [|reflexivity].
  match goal with |- context [update ?i ?d ?e ?b] =>
    pose proof (update_columns f i d e b) as Hupd; destruct (update i d e b) as [[?|?] ?]
  end; exact Hupd.
Qed.

Lemma updateProfile_columns (f : UniqueField) (userId : string) (data : JsObject)
    (env : Env) (db : Db) :
  map (column f) (users (snd (updateProfile userId data env db))) = map (column f) (users db).
Proof.
  rewrite updateProfile_run. destruct (updateProfileSchema data) as [l|v]; [reflexivity|].
  match goal with |- context [update ?i ?d ?e ?b] =>
    pose proof (update_columns f i d e b) as Hupd; destruct (update i d e b) as [[?|?] ?]
  end; exact Hupd.
Qed.

Lemma changePassword_columns (f : UniqueField) (userId : string) (data : JsObject)
    (env : Env) (db : Db) :
  map (column f) (users (snd (changePassword userId data env db))) = map (column f) (users db).
Proof.
  destruct (changePasswordSchema data) as [l|v] eqn:Hv.
  { unfold changePassword. step. now rewrite Hv. }
  rewrite (changePassword_run _ _ _ _ _ Hv). cbv zeta.
  destruct (lookup_user ById userId db) as [u|]; [|reflexivity].
  destruct (verifyPassword _ _); [|reflexivity].
  match goal with |- context [update ?i ?d ?e ?b] =>
    pose proof (update_columns f i d e b) as Hupd; destruct (update i d e b) as [[?|?] ?]
  end; exact Hupd.
Qed.

(** A registration leaves the table alone or appends one row that clashes
    with none. *)
Lemma register_users (data : JsObject) (env : Env) (db : Db) :
  users (snd (register data env db)) = users db \/
  exists u, existsb (clashes u) (users db) = false /\
            users (snd (register data env db)) = (users db ++ [u])%list.
Proof.
  unfold register. step.
  destruct (registerSchema data) as [l|v]; [now left|].
  destruct (is_found (lookup_user ByEmail _ db)); [now left|].
  destruct (is_found (lookup_user ByUsername _ _)); [now left|].
  unfold create. cbn [users record_query].
  match goal with |- context [existsb (clashes ?row) _] => set (u := row) end.
  destruct (existsb (clashes u) (users db)) eqn:Hfresh; [now left|].
  right. exists u. split; [assumption | reflexivity].
Qed.

Lemma lookup_None_not_in (f : UniqueField) (value : string) (db : Db) :
  lookup_user f value db = None -> value ∉ map (column f) (users db).
Proof.
  intros Hnone Hin. rewrite list_elem_of_In, in_map_iff in Hin.
  destruct Hin as (u & <- & Hu).
  pose proof (find_none _ _ Hnone u Hu) as Hneq. cbn in Hneq.
  now rewrite String.eqb_refl in Hneq.
Qed.

Lemma NoDup_snoc_fresh (l : list string) (x : string) :
  NoDup l -> x ∉ l -> NoDup (l ++ [x]).
Proof.
  intros Hnd Hx. apply NoDup_app. repeat split; [assumption | | apply NoDup_singleton].
  intros y Hy Hin. apply list_elem_of_singleton in Hin. now subst.
Qed.

(** X11. The uniqueness of ids, emails and usernames is an invariant of the
    service: whatever their input and their outcome, [register], [login],
    [updateProfile] and [changePassword] take a table without duplicates
    in these three columns to a table without duplicates in them. *)
Theorem service_keeps_accounts_unique
    (userId : string) (data : JsObject) (env : Env) (db : Db) :
  unique_accounts db ->
  unique_accounts (snd (register data env db)) /\
  unique_accounts (snd (login data env db)) /\
  unique_accounts (snd (updateProfile userId data env db)) /\
  unique_accounts (snd (changePassword userId data env db)).
Proof.
  intros (Hid & Hemail & Hname). unfold unique_accounts.
  pose proof (fun f => login_columns f data env db) as Hl.
  pose proof (fun f => updateProfile_columns f userId data env db) as Hp.
  pose proof (fun f => changePassword_columns f userId data env db) as Hc.
  pose proof (Hl ById) as Hl1. pose proof (Hl ByEmail) as Hl2. pose proof (Hl ByUsername) as Hl3.
  pose proof (Hp ById) as Hp1. pose proof (Hp ByEmail) as Hp2. pose proof (Hp ByUsername) as Hp3.
  pose proof (Hc ById) as Hc1. pose proof (Hc ByEmail) as Hc2. pose proof (Hc ByUsername) as Hc3.
  cbn [column] in *.
  rewrite Hl1, Hl2, Hl3, Hp1, Hp2, Hp3, Hc1, Hc2, Hc3.
  split; [|auto].
  destruct (register_users data env db) as [->|(u & Hfresh & ->)]; [auto|].
  apply no_clash_iff in Hfresh as (Hi & He & Hn).
  apply (lookup_None_not_in ById) in Hi. apply (lookup_None_not_in ByEmail) in He.
  apply (lookup_None_not_in ByUsername) in Hn. cbn [column] in *.
  rewrite !map_app. cbn [map]. repeat split; now apply NoDup_snoc_fresh.
Qed.
End ServiceOutcomes.

(** * Properties of the routes *)

Section RouteProperties.
Context `{Validators} `{Bcrypt} `{Jws} `{Config}.

Ltac step :=
  unfold bind, parse, ret, throw, findUnique in *; cbn [fst snd] in *.

(** What the gate in front of a handler comes to: the handler on the
    identity of the verified token, or a 401 that leaves the store alone. *)
Lemma behind_gate_cases (handler : Identity.t -> Db -> Answer * Db)
    (req : Request) (clock : Z) (db : Db) :
  (exists c, presents req clock c /\
             behind_gate handler req clock db = handler (identity_of c) db) \/
  ((~ exists c, presents req clock c) /\
   exists code message,
     behind_gate handler req clock db = (failure 401 code message None [], db) /\
     (code = "NO_TOKEN" \/ code = "INVALID_TOKEN")).
Proof.
  unfold behind_gate, presents.
  destruct (bearer_cases (authorization req)) as [Hno|(t & Hb & Hne)].
  - right. rewrite (authenticateToken_absent _ _ Hno). split; [|eauto 6].
    intros (c & t & Hb & Hne & _). rewrite Hb in Hno. cbn in Hno.
    apply String.eqb_eq in Hno. contradiction.
  - rewrite (authenticateToken_present _ _ _ Hb Hne).
    destruct (verifyToken t clock) as [e|c] eqn:Hv.
    + right. split; [|eauto 6].
      intros (c & t' & Hb' & _ & Hok). rewrite Hb in Hb'. injection Hb' as <-.
      apply verifyToken_inr in Hok. congruence.
    + left. exists c. apply verifyToken_inr in Hv. split; [eauto|reflexivity].
Qed.

(** X12. [GET /me] never changes the table and never answers 500: without
    a bearer token that verifies it answers 401 ([NO_TOKEN] or
    [INVALID_TOKEN]) without a call to the store; with one it answers 200
    with the account whose id the token carries, stripped of its
    credential, or 400 [USER_NOT_FOUND] when that account is gone. *)
Theorem get_me_outcomes (req : Request) (clock : Z) (db : Db) :
  users (snd (get_me req clock db)) = users db /\
  ((exists c u, presents req clock c /\
        lookup_user ById (Payload.userId (payload c)) db = Some u /\
        fst (get_me req clock db) = success 200 (account_data (excludePassword u)) None) \/
   (exists c, presents req clock c /\
        lookup_user ById (Payload.userId (payload c)) db = None /\
        fst (get_me req clock db) = failure 400 "USER_NOT_FOUND" "用户不存在" None []) \/
   ((~ exists c, presents req clock c) /\
    exists code message,
      get_me req clock db = (failure 401 code message None [], db) /\
      (code = "NO_TOKEN" \/ code = "INVALID_TOKEN"))).
Proof.
  unfold get_me.
  destruct (behind_gate_cases
              (fun caller db =>
                 match getCurrentUser (Identity.userId caller) db with
                 | (inr user, db') => (success 200 (account_data user) None, db')
                 | (inl error, db') => (handleError error, db')
                 end) req clock db) as [(c & Hc & ->)|(Hno & code & message & -> & Hcode)].
  - unfold getCurrentUser. step. cbn [identity_of Identity.userId].
    destruct (lookup_user ById (Payload.userId (payload c)) db) as [u|] eqn:Hu;
      cbn [fst snd users record_query handleError].
    + split; [reflexivity|]. left. exists c, u. auto.
    + split; [reflexivity|]. right. left. exists c. auto.
  - split; [reflexivity|]. right. right. split; [assumption|]. eauto.
Qed.

Lemma updateProfile_other_rows (userId : string) (data : JsObject) (env : Env) (db : Db)
    (i : nat) (row : User.t) :
  users db !! i = Some row -> User.id row <> userId ->
  users (snd (updateProfile userId data env db)) !! i = Some row.
Proof.
  intros Hrow Hne. rewrite updateProfile_run.
  destruct (updateProfileSchema data) as [l|v]; [exact Hrow|].
  unfold update. destruct (lookup_user ById userId db); cbn [snd users record_query];
    [|exact Hrow].
  rewrite lookup_map, Hrow. cbn.
  destruct (String.eqb_spec (User.id row) userId); [contradiction | reflexivity].
Qed.

Lemma changePassword_other_rows (userId : string) (data : JsObject) (env : Env) (db : Db)
    (i : nat) (row : User.t) :
  users db !! i = Some row -> User.id row <> userId ->
  users (snd (changePassword userId data env db)) !! i = Some row.
Proof.
  intros Hrow Hne. unfold changePassword. step.
  destruct (changePasswordSchema data) as [l|v]; [exact Hrow|].
  destruct (lookup_user ById userId db) as [u|]; [|exact Hrow].
  destruct (negb _); [exact Hrow|]. step.
  unfold update. destruct (lookup_user ById userId _); cbn [snd users record_query];
    [|exact Hrow].
  rewrite lookup_map, Hrow. cbn.
  destruct (String.eqb_spec (User.id row) userId); [contradiction | reflexivity].
Qed.

(** X13. Through [PUT /profile] and [PUT /password] a caller reaches no
    account but the one whose id the verified token carries: whatever the
    body holds, a row whose id is not the id of the token the call presents
    (in particular every row, when the call presents no valid token) is
    the same after the call. *)
Theorem routes_touch_own_account_only
    (body : JsObject) (env : Env) (req : Request) (clock : Z) (db : Db)
    (i : nat) (row : User.t) :
  users db !! i = Some row ->
  (forall c, presents req clock c -> User.id row <> Payload.userId (payload c)) ->
  users (snd (put_profile body env req clock db)) !! i = Some row /\
  users (snd (put_password body env req clock db)) !! i = Some row.
Proof.
  intros Hrow Hother. unfold put_profile, put_password. split.
  - match goal with |- context [behind_gate ?h _ _ _] =>
      destruct (behind_gate_cases h req clock db)
        as [(c & Hc & ->)|(_ & code & message & -> & _)]
    end; [|exact Hrow].
    cbn [identity_of Identity.userId].
    pose proof (updateProfile_other_rows (Payload.userId (payload c)) body env db i row
                  Hrow (Hother c Hc)) as Hkept.
    destruct (updateProfile _ body env db) as [[e|o] db']; exact Hkept.
  - match goal with |- context [behind_gate ?h _ _ _] =>
      destruct (behind_gate_cases h req clock db)
        as [(c & Hc & ->)|(_ & code & message & -> & _)]
    end; [|exact Hrow].
    cbn [identity_of Identity.userId].
    pose proof (changePassword_other_rows (Payload.userId (payload c)) body env db i row
                  Hrow (Hother c Hc)) as Hkept.
    destruct (changePassword _ body env db) as [[e|[]] db']; exact Hkept.
Qed.

(** X14. [POST /login] has three answers and no other: 200 with the account
    and a token; 400 [VALIDATION_ERROR] carrying the issues, exactly when
    the body does not pass [loginSchema]; 400 [INVALID_CREDENTIALS],
    without a field, for a body that passes.  It answers neither 401 nor
    500. *)
Theorem post_login_answers (body : JsObject) (env : Env) (db : Db) :
  match loginSchema body with
  | inl l =>
    post_login body env db
      = (failure 400 "VALIDATION_ERROR" "输入数据格式错误" None l, db)
  | inr v =>
    (exists r, fst (post_login body env db) = success 200 (auth_data r) (Some "登录成功") /\
               AuthResult.user r !! "passwordHash" = None) \/
    fst (post_login body env db)
      = failure 400 "INVALID_CREDENTIALS" "邮箱或密码错误" None []
  end.
Proof.
  unfold post_login. destruct (loginSchema body) as [l|v] eqn:Hv.
  { unfold login. step. now rewrite Hv. }
  rewrite (login_run _ _ _ _ Hv). cbv zeta.
  destruct (lookup_user ByEmail _ db) as [u|] eqn:Hu; [|now right].
  destruct (verifyPassword _ _); [|now right].
  pose proof (find_some _ _ Hu) as [Hin _].
  unfold update. unfold lookup_user at 1. cbn [users record_query column].
  destruct (find (fun r => String.eqb (User.id r) (User.id u)) (users db)) as [u0|] eqn:Hid.
  - left. eexists. split; [reflexivity|]. cbn [AuthResult.user].
    unfold excludePassword. apply lookup_delete_eq.
  - pose proof (find_none _ _ Hid u Hin) as Hneq. cbn in Hneq.
    now rewrite String.eqb_refl in Hneq.
Qed.
End RouteProperties.

(** * What the schemas accept *)

Section SchemaProperties.
Context `{Validators}.







End SchemaProperties.

(** * Properties of the article service *)

(** X17. [calculateReadTime] prints the least number of minutes that covers
    the text at 200 units a minute, followed by the two characters of
    "minutes": none for an empty text, one for 1 to 200 units, and so on. *)
Theorem calculateReadTime_rounds_up (content : text) :
  exists minutes : nat,
    calculateReadTime content = (decimal minutes ++ [20998; 38047]%N)%list /\
    (length content <= 200 * minutes)%nat /\
    (200 * minutes < length content + 200)%nat.
Proof.
  unfold calculateReadTime, ceil_div. cbv zeta.
  pose proof (Nat.div_mod_eq (length content) 200) as Hdiv.
  pose proof (Nat.mod_upper_bound (length content) 200 ltac:(lia)) as Hmod.
  destruct (Nat.eqb_spec (length content mod 200) 0) as [Hz|Hnz].
  - exists (length content / 200)%nat. split; [reflexivity | lia].
  - exists (S (length content / 200)). split; [reflexivity | lia].
Qed.

Section DeleteArticle.

Lemma filter_other_ids (id : string) (l : list Article.t) (a : Article.t) :
  In a (List.filter (fun a => negb (String.eqb (Article.id a) id)) l) <->
  In a l /\ Article.id a <> id.
Proof.
  rewrite filter_In, negb_true_iff. split; intros [Hin Hne]; split; try assumption.
  - intros Heq. rewrite Heq, String.eqb_refl in Hne. discriminate.
  - now destruct (String.eqb_spec (Article.id a) id).
Qed.

(** X18. [deleteArticle] succeeds exactly when the article exists, the
    account of the caller exists, and the caller is its author or has the
    role [ADMIN]; it fails [ARTICLE_NOT_FOUND] exactly when no article has
    the id (before any look at the caller), and [PERMISSION_DENIED] exactly
    when the article exists and the caller's account is gone or is neither
    the author's nor an administrator's.  On success the articles left are
    those of the other ids, in their order; on failure they are all there;
    the accounts are never changed. *)
Theorem deleteArticle_outcomes (id userId : string) (blog : Blog) :
  let result := fst (deleteArticle id userId blog) in
  let blog' := snd (deleteArticle id userId blog) in
  (result = inr tt <->
     exists a u, article_by_id id (articles blog) = Some a /\
                 lookup_user ById userId (accounts blog) = Some u /\
                 (Article.authorId a = userId \/ User.role u = "ADMIN")) /\
  (result = inl (ArticleError "文章不存在" "ARTICLE_NOT_FOUND" None) <->
     forall a, In a (articles blog) -> Article.id a <> id) /\
  (result = inl (ArticleError "没有权限删除此文章" "PERMISSION_DENIED" None) <->
     exists a, article_by_id id (articles blog) = Some a /\
       (lookup_user ById userId (accounts blog) = None \/
        exists u, lookup_user ById userId (accounts blog) = Some u /\
                  Article.authorId a <> userId /\ User.role u <> "ADMIN")) /\
  (result = inr tt ->
     articles blog' =
       List.filter (fun a => negb (String.eqb (Article.id a) id)) (articles blog) /\
     forall a, In a (articles blog') <-> In a (articles blog) /\ Article.id a <> id) /\
  (result <> inr tt -> articles blog' = articles blog) /\
  users (accounts blog') = users (accounts blog).
Proof.
  cbv zeta. unfold deleteArticle.
  destruct (article_by_id id (articles blog)) as [a|] eqn:Ha.
  2:{ cbn [fst snd]. repeat split; try discriminate; try (intros (? & ? & [=] & _));
        try (intros (? & [=] & _)); try reflexivity.
      intros _ b Hb Hid. pose proof (find_none _ _ Ha b Hb) as Hneq. cbn in Hneq.
      rewrite Hid, String.eqb_refl in Hneq. discriminate. }
  pose proof (find_some _ _ Ha) as [Hin Hid]. apply String.eqb_eq in Hid.
  assert (Hfound : ~ forall b, In b (articles blog) -> Article.id b <> id).
  { intros Hnone. now apply (Hnone a). }
  cbv zeta.
  assert (Hrem : forall b,
    In b (List.filter (fun a => negb (String.eqb (Article.id a) id)) (articles blog)) <->
    In b (articles blog) /\ Article.id b <> id)
    by (intros b; apply filter_other_ids).
  destruct (lookup_user ById userId (accounts blog)) as [u|] eqn:Hu.
  2:{ cbn [fst snd accounts articles users record_query].
      split; [|split; [|split; [|split; [|split]]]].
      - split; [discriminate | intros (? & ? & _ & [=] & _)].
      - split; [discriminate | contradiction].
      - split; [intros _; exists a; auto | reflexivity].
      - discriminate.
      - reflexivity.
      - reflexivity. }
  destruct (String.eqb_spec (Article.authorId a) userId) as [Hauthor|Hauthor];
    destruct (String.eqb_spec (User.role u) "ADMIN") as [Hadmin|Hadmin];
    cbn [negb andb fst snd accounts articles users record_query].
  4:{ split; [|split; [|split; [|split; [|split]]]].
      - split; [discriminate|].
        intros (a' & u' & [= <-] & [= <-] & [?|?]); contradiction.
      - split; [discriminate | contradiction].
      - split; [|reflexivity]. intros _. exists a. split; [reflexivity|].
        right. exists u. auto.
      - discriminate.
      - reflexivity.
      - reflexivity. }
  all: split; [|split; [|split; [|split; [|split]]]];
    [ split; [intros _; exists a, u; auto | reflexivity]
    | split; [discriminate | contradiction]
    | split; [discriminate|];
      intros (a' & [= <-] & [[=]|(u' & [= <-] & ? & ?)]); contradiction
    | intros _; split; [reflexivity | exact Hrem]
    | intros Hne; now contradiction Hne
    | reflexivity ].
Qed.
End DeleteArticle.

Section Decimal.

Lemma units_String (c : ascii) (s : string) : units (String c s) = N_of_ascii c :: units s.
Proof. reflexivity. Qed.

Lemma units_inj (s1 s2 : string) : units s1 = units s2 -> s1 = s2.
Proof.
  revert s2. induction s1 as [|c1 s1 IH]; intros [|c2 s2] Heq; try discriminate.
  - reflexivity.
  - rewrite !units_String in Heq. injection Heq as Hc Hs.
    f_equal; [|now apply IH].
    rewrite <- (ascii_N_embedding c1), <- (ascii_N_embedding c2). now f_equal.
Qed.

Lemma pretty_N_char_digit (x : N) :
  (48 <= N_of_ascii (pretty_N_char x) <= 57)%N.
Proof. unfold pretty_N_char. repeat case_match; cbv; split; congruence. Qed.

Lemma pretty_N_go_digits (x : N) (s : string) :
  Forall (fun c => 48 <= c <= 57)%N (units s) ->
  Forall (fun c => 48 <= c <= 57)%N (units (pretty_N_go x s)) /\
  (String.length s <= String.length (pretty_N_go x s))%nat.
Proof.
  revert s. induction (N.lt_wf_0 x) as [x _ IH]. intros s Hs.
  assert (x = 0 \/ 0 < x)%N as [->|Hpos] by lia.
  - rewrite pretty_N_go_0. auto.
  - rewrite pretty_N_go_step by exact Hpos.
    destruct (IH (x / 10)%N (N.div_lt x 10 Hpos eq_refl)
                 (String (pretty_N_char (x mod 10)) s)) as [Hd Hl].
    + rewrite units_String. constructor; [apply pretty_N_char_digit | exact Hs].
    + split; [exact Hd|]. cbn [String.length] in Hl. lia.
Qed.

Lemma units_length (s : string) : length (units s) = String.length s.
Proof.
  induction s as [|c s IH]; [reflexivity|].
  rewrite units_String. cbn [length String.length]. now f_equal.
Qed.

Lemma pretty_N_digits (x : N) :
  Forall (fun c => 48 <= c <= 57)%N (units (pretty x)) /\ units (pretty x) <> [].
Proof.
  unfold pretty, pretty_N. destruct (decide (x = 0)%N) as [->|Hne].
  - split; [|discriminate]. repeat constructor; cbv; congruence.
  - rewrite pretty_N_go_step by lia.
    destruct (pretty_N_go_digits (x / 10)
                (String (pretty_N_char (x mod 10)) EmptyString)) as [Hd Hl].
    { rewrite units_String. constructor; [apply pretty_N_char_digit | constructor]. }
    split; [exact Hd|]. intros Hnil. apply (f_equal (@length N)) in Hnil.
    rewrite units_length in Hnil. cbn [String.length length] in *. lia.
Qed.

Lemma decimal_digits (n : nat) :
  Forall (fun c => 48 <= c <= 57)%N (decimal n) /\ decimal n <> [].
Proof. apply pretty_N_digits. Qed.

Lemma decimal_time_digits (t : Z) :
  0 <= t -> Forall (fun c => 48 <= c <= 57)%N (decimal_time t) /\ decimal_time t <> [].
Proof.
  intros Ht. unfold decimal_time. destruct t as [|p|p]; [| |lia].
  - split; [|discriminate]. repeat constructor; cbv; congruence.
  - apply (pretty_N_digits (Npos p)).
Qed.

Lemma decimal_inj (n m : nat) : decimal n = decimal m -> n = m.
Proof. intros Heq. apply units_inj in Heq. now apply (inj pretty) in Heq. Qed.

Lemma candidate_inj (slug : text) (i j : nat) :
  candidate slug i = candidate slug j -> i = j.
Proof.
  destruct i as [|i], j as [|j]; cbn [candidate]; intros Heq.
  - reflexivity.
  - apply (f_equal (@length N)) in Heq. rewrite length_app in Heq.
    cbn [length app] in Heq. lia.
  - apply (f_equal (@length N)) in Heq. rewrite length_app in Heq.
    cbn [length app] in Heq. lia.
  - apply app_inv_head in Heq. injection Heq as Heq. now apply decimal_inj.
Qed.
End Decimal.

Section UniqueSlug.
Context `{Unicode}.

Lemma taken_dec (articles : list Article.t) (excludeId : option string) (slug : text) :
  {taken articles excludeId slug} + {~ taken articles excludeId slug}.
Proof.
  unfold taken. destruct (article_by_slug slug articles) as [a|] eqn:Ha.
  - destruct (decide (Some (Article.id a) = excludeId)) as [Heq|Hne].
    + right. intros (b & [= <-] & Hb). contradiction.
    + left. exists a. auto.
  - right. intros (b & [=] & _).
Qed.

Lemma taken_slug (articles : list Article.t) (excludeId : option string) (slug : text) :
  taken articles excludeId slug -> slug ∈ map Article.slug articles.
Proof.
  intros (a & Ha & _). apply find_some in Ha as [Hin Hslug].
  apply bool_decide_eq_true in Hslug. subst slug.
  apply list_elem_of_In, in_map, Hin.
Qed.

(** Of any [length articles + 1] candidates in a row one is free. *)
Lemma candidates_run_out (articles : list Article.t) (excludeId : option string)
    (slug : text) :
  ~ forall j, (j <= length articles)%nat -> taken articles excludeId (candidate slug j).
Proof.
  intros Hall.
  assert (Hsub : map (candidate slug) (seq 0 (S (length articles)))
                   ⊆+ map Article.slug articles).
  { apply NoDup_submseteq.
    - apply NoDup_fmap_2; [intros i j; apply candidate_inj | apply NoDup_seq].
    - intros s Hs. apply list_elem_of_In, in_map_iff in Hs as (j & <- & Hj).
      apply in_seq in Hj. apply (taken_slug articles excludeId), Hall. lia. }
  apply submseteq_length in Hsub. rewrite !length_map, length_seq in Hsub. lia.
Qed.

Lemma first_free_candidate (articles : list Article.t) (excludeId : option string)
    (slug : text) (n : nat) :
  (forall j, (j < n)%nat -> taken articles excludeId (candidate slug j)) \/
  exists k, (k < n)%nat /\ ~ taken articles excludeId (candidate slug k) /\
            forall j, (j < k)%nat -> taken articles excludeId (candidate slug j).
Proof.
  induction n as [|n [IH|IH]].
  - left. intros j Hj. lia.
  - destruct (taken_dec articles excludeId (candidate slug n)) as [Ht|Hf].
    + left. intros j Hj. destruct (decide (j = n)) as [->|Hne]; [exact Ht|].
      apply IH. lia.
    + right. exists n. split; [lia|]. split; [exact Hf | exact IH].
  - right. destruct IH as (k & Hk & Hfree & Hbelow). exists k.
    split; [lia|]. split; assumption.
Qed.

Lemma unique_slug_loop_run (articles : list Article.t) (excludeId : option string)
    (slug : text) (k fuel counter : nat) :
  (k < fuel)%nat ->
  ~ taken articles excludeId (candidate slug (counter + k)) ->
  (forall j, (j < k)%nat -> taken articles excludeId (candidate slug (counter + j))) ->
  unique_slug_loop fuel articles slug excludeId counter (candidate slug counter) =
    Some (candidate slug (counter + k)).
Proof.
  revert fuel counter. induction k as [|k IH]; intros [|fuel] counter Hk Hfree Hbelow;
    try lia; cbn [unique_slug_loop].
  - rewrite Nat.add_0_r in Hfree. rewrite Nat.add_0_r. unfold taken in Hfree.
    destruct (article_by_slug (candidate slug counter) articles) as [a|]; [|reflexivity].
    destruct (bool_decide_reflect (Some (Article.id a) = excludeId)) as [Heq|Hne];
      [reflexivity|].
    contradiction Hfree. exists a. auto.
  - destruct (Hbelow 0%nat ltac:(lia)) as (a & Ha & Hne).
    rewrite Nat.add_0_r in Ha. rewrite Ha.
    rewrite (bool_decide_eq_false_2 _ Hne).
    change (slug ++ [dash] ++ decimal (S counter))%list with (candidate slug (S counter)).
    rewrite (IH fuel (S counter)).
    + f_equal. f_equal. lia.
    + lia.
    + replace (S counter + k)%nat with (counter + S k)%nat by lia. exact Hfree.
    + intros j Hj. replace (S counter + j)%nat with (counter + S j)%nat by lia.
      apply Hbelow. lia.
Qed.

(** X19. The loop of [generateUniqueSlug] ends: with one round more than
    there are articles it returns the slug of the title itself, or that
    slug followed by a dash and the least counter [k >= 1], such that the
    store has no article under the result other than the excluded one,
    while every candidate before it is taken by another article.  At most
    as many candidates are taken as there are articles. *)
Theorem generateUniqueSlug_returns_first_free (fuel : nat) (title : text)
    (excludeId : option string) (now : Z) (articles : list Article.t)
    (Hfuel : (length articles < fuel)%nat) :
  exists k : nat,
    (k <= length articles)%nat /\
    generateUniqueSlug fuel title excludeId now articles =
      Some (candidate (title_slug title now) k) /\
    ~ taken articles excludeId (candidate (title_slug title now) k) /\
    forall j, (j < k)%nat -> taken articles excludeId (candidate (title_slug title now) j).
Proof.
  unfold generateUniqueSlug. cbv zeta. set (slug := title_slug title now).
  destruct (first_free_candidate articles excludeId slug (S (length articles)))
    as [Hall|(k & Hk & Hfree & Hbelow)].
  - exfalso. apply (candidates_run_out articles excludeId slug).
    intros j Hj. apply Hall. lia.
  - exists k. split; [lia|]. split; [|split; assumption].
    apply (unique_slug_loop_run articles excludeId slug k fuel 0); [lia|exact Hfree|exact Hbelow].
Qed.
End UniqueSlug.

Section SlugShape.
Context `{Unicode}.

Lemma replace_runs_units (p : N -> bool) (s : text) (b : bool) (c : N) :
  In c (replace_runs p b s) -> (In c s /\ p c = false) \/ c = dash.
Proof.
  revert b. induction s as [|d s IH]; intros b Hin; [destruct Hin|].
  cbn [replace_runs] in Hin. destruct (p d) eqn:Hd.
  - destruct b.
    + destruct (IH _ Hin) as [[Hs Hp]|Hdash]; [left; split; [now right | exact Hp] | now right].
    + destruct Hin as [<-|Hin]; [now right|].
      destruct (IH _ Hin) as [[Hs Hp]|Hdash]; [left; split; [now right | exact Hp] | now right].
  - destruct Hin as [<-|Hin]; [left; split; [now left | exact Hd]|].
    destruct (IH _ Hin) as [[Hs Hp]|Hdash]; [left; split; [now right | exact Hp] | now right].
Qed.

Lemma replace_runs_no_double (p : N -> bool) (Hp : p dash = true) (s : text) (b : bool) :
  (forall l1 l2, replace_runs p b s <> l1 ++ dash :: dash :: l2)%list /\
  (b = true -> forall l, replace_runs p b s <> dash :: l).
Proof.
  revert b. induction s as [|d s IH]; intros b.
  - split; [intros [|] ?; discriminate | discriminate].
  - cbn [replace_runs]. destruct (p d) eqn:Hd.
    + destruct b.
      * apply IH.
      * split; [|discriminate]. intros [|x l1] l2 Heq.
        -- injection Heq as Heq. now apply (proj2 (IH true) eq_refl l2).
        -- injection Heq as _ Heq. now apply (proj1 (IH true) l1 l2).
    + assert (Hne : d <> dash) by (intros ->; congruence).
      split.
      * intros [|x l1] l2 Heq.
        -- injection Heq as Heq _. contradiction.
        -- injection Heq as _ Heq. now apply (proj1 (IH false) l1 l2).
      * intros _ l Heq. injection Heq as Heq _. contradiction.
Qed.

Lemma strip_leading_cases (s : text) :
  (strip_leading s = s /\ forall l, s <> dash :: l) \/ s = dash :: strip_leading s.
Proof.
  destruct s as [|c s]; cbn [strip_leading].
  - left. split; [reflexivity | discriminate].
  - destruct (N.eqb_spec c dash) as [->|Hne].
    + now right.
    + left. split; [reflexivity|]. intros l [= ? _]. contradiction.
Qed.

Lemma strip_trailing_cases (s : text) :
  (strip_trailing s = s /\ forall l, s <> l ++ [dash])%list \/
  (s = strip_trailing s ++ [dash])%list.
Proof.
  unfold strip_trailing.
  destruct (strip_leading_cases (rev s)) as [[Heq Hne]|Heq].
  - left. rewrite Heq, rev_involutive. split; [reflexivity|].
    intros l ->. rewrite rev_app_distr in Hne. now apply (Hne (rev l)).
  - right. rewrite <- (rev_involutive s) at 1. rewrite Heq.
    cbn [rev]. reflexivity.
Qed.

Lemma existsb_unit (p : N -> bool) (s : text) :
  existsb p s = true -> exists c, In c s /\ p c = true.
Proof. intros Hex. now apply existsb_exists. Qed.

(** X20. The slug [generateUniqueSlug] derives from a title, at a time of
    day that is not before the epoch, is made of lower-case letters,
    digits, the ideographs U+4E00 to U+9FA5 and dashes only; it has at
    least one letter or digit, hence is not empty; it neither starts nor
    ends with a dash, and has no two dashes in a row. *)
Theorem title_slug_shape (title : text) (now : Z) (Hnow : 0 <= now) :
  let slug := title_slug title now in
  (forall c, In c slug -> slug_unit c = true \/ c = dash) /\
  (exists c, In c slug /\ lower_or_digit c = true) /\
  (forall l, slug <> dash :: l) /\
  (forall l, slug <> l ++ [dash])%list /\
  (forall l1 l2, slug <> l1 ++ dash :: dash :: l2)%list.
Proof.
  cbv zeta. unfold title_slug. cbv zeta.
  set (t1 := replace_runs (fun c => negb (slug_unit c)) false (toLowerCase title)).
  set (t2 := replace_runs (N.eqb dash) false t1).
  destruct (existsb lower_or_digit (strip_ends t2)) eqn:Hex; cbn [negb].
  - (* the slug of the title *)
    assert (Hunits : forall c, In c t2 -> slug_unit c = true \/ c = dash).
    { intros c Hc. apply replace_runs_units in Hc as [[Hc _]|Hc]; [|now right].
      apply replace_runs_units in Hc as [[_ Hc]|Hc]; [|now right].
      left. now apply negb_false_iff in Hc. }
    assert (Hdd : forall l1 l2, t2 <> (l1 ++ dash :: dash :: l2)%list).
    { apply (replace_runs_no_double (N.eqb dash) (N.eqb_refl dash) t1 false). }
    unfold strip_ends in *. set (t3 := strip_leading t2) in *.
    assert (Hhead : forall l, t3 <> dash :: l).
    { subst t3. destruct (strip_leading_cases t2) as [[-> Hne]|Heq]; [exact Hne|].
      intros l Hl. apply (Hdd [] l). rewrite Heq, Hl. reflexivity. }
    assert (Hsub3 : exists pre, t2 = (pre ++ t3)%list).
    { subst t3. destruct (strip_leading_cases t2) as [[-> _]|Heq].
      - now exists [].
      - now exists [dash]. }
    destruct Hsub3 as (pre & Hpre).
    assert (Hsub4 : exists post, t3 = (strip_trailing t3 ++ post)%list).
    { destruct (strip_trailing_cases t3) as [[-> _]|Heq].
      - exists []. now rewrite app_nil_r.
      - now exists [dash]. }
    destruct Hsub4 as (post & Hpost).
    split; [|split; [|split; [|split]]].
    + intros c Hc. apply Hunits. rewrite Hpre, Hpost, !in_app_iff. auto.
    + now apply existsb_unit.
    + intros l Hl. apply (Hhead (l ++ post)%list). rewrite Hpost at 1. now rewrite Hl.
    + destruct (strip_trailing_cases t3) as [[-> Hne]|Heq]; [exact Hne|].
      intros l Hl. apply (Hdd (pre ++ l)%list []).
      rewrite Hpre, Heq, Hl, <- !app_assoc. reflexivity.
    + intros l1 l2 Hl. apply (Hdd (pre ++ l1)%list (l2 ++ post)%list).
      rewrite Hpre, Hpost, Hl, <- !app_assoc. reflexivity.
  - (* [article-] and the time *)
    destruct (decimal_time_digits now Hnow) as [Hdigits Hne].
    destruct (decimal_time now) as [|d ds] eqn:Hd; [contradiction|]. clear Hne.
    assert (Hdash : forall c, In c (d :: ds) -> c <> dash).
    { intros c Hc. rewrite Forall_forall in Hdigits.
      apply list_elem_of_In, Hdigits in Hc. unfold dash. lia. }
    assert (Hunit : forall c, In c (d :: ds) -> lower_or_digit c = true).
    { intros c Hc. rewrite Forall_forall in Hdigits.
      apply list_elem_of_In, Hdigits in Hc. unfold lower_or_digit.
      apply orb_true_iff. right. apply andb_true_iff. split; apply N.leb_le; lia. }
    change (units "article-") with [97; 114; 116; 105; 99; 108; 101; 45]%N.
    split; [|split; [|split; [|split]]].
    + intros c Hc. apply in_app_iff in Hc as [Hc|Hc].
      * cbn [In] in Hc.
        repeat (destruct Hc as [<-|Hc]; [(now left) || (now right)|]). destruct Hc.
      * left. unfold slug_unit. now rewrite (Hunit c Hc).
    + exists 97%N. split; [now left | reflexivity].
    + intros l Heq. discriminate.
    + intros l Heq.
      assert (Hcons : d :: ds <> []) by discriminate.
      destruct (exists_last Hcons) as (l' & x & Hl').
      rewrite Hl', app_assoc in Heq. apply app_inj_tail in Heq as [_ ->].
      apply (Hdash dash); [|reflexivity]. rewrite Hl'. apply in_app_iff. right. now left.
    + intros l1 l2 Heq. unfold dash in Heq. cbn [app] in Heq.
      do 7 (destruct l1 as [|? l1]; [discriminate | injection Heq as _ Heq]).
      destruct l1 as [|? l1].
      * apply (Hdash d); [now left | unfold dash; cbn [app] in Heq; congruence].
      * injection Heq as _ Heq. apply (Hdash dash); [|reflexivity].
        rewrite Heq. apply in_app_iff. right. now left.
Qed.
End SlugShape.

(** * The further properties on concrete inputs *)

Section MoreRuns.
Import Demo DemoBlog.
#[local] Existing Instances validators bcrypt jws config unicode.

Lemma demo_compare_hash (p : string) (n : nat) (s : string) :
  bcrypt_compare p (bcrypt_hash p n s) = true.
Proof. cbn [bcrypt_compare bcrypt_hash bcrypt]. apply String.eqb_refl. Qed.

Lemma demo_registration :
  registerSchema (registration "b@x.com" "bob" (JBool true)) = inr bob.
Proof. vm_compute. reflexivity. Qed.


(** After [bob] has registered, [bob] logs in with the same password. *)
Lemma register_then_login_witness :
  exists r db' r' db'',
    register (registration "b@x.com" "bob" (JBool true)) env0 db0 = (inr r, db') /\
    login (credentials "b@x.com" "secret1") env0 db' = (inr r', db'').
Proof.
  destruct (register (registration "b@x.com" "bob" (JBool true)) env0 db0)
    as [[e|r] db'] eqn:Hrun; [vm_compute in Hrun; discriminate|].
  destruct (register_then_login _ bob env0 env0 db0 db' r demo_compare_hash
              demo_registration Hrun) as (r' & db'' & Hlogin & _).
  exists r, db', r', db''. split; [reflexivity | exact Hlogin].
Defined.

(** [alice] logs in: the answer carries the time of this login. *)
Lemma login_records_last_login_witness :
  exists r db',
    login (credentials "a@x.com" "secret1") env0 db0 = (inr r, db') /\
    AuthResult.user r !! "lastLoginAt" = Some (JDate 1000000) /\
    length (users db') = 1%nat.
Proof.
  assert (Hv : loginSchema (credentials "a@x.com" "secret1")
               = inr {| LoginData.email := "a@x.com"; LoginData.password := "secret1";
                        LoginData.rememberMe := None |})
    by (vm_compute; reflexivity).
  assert (Hrow : lookup_user ByEmail "a@x.com" db0 = Some alice_row) by reflexivity.
  assert (Hpw : bcrypt_compare "secret1" (User.passwordHash alice_row) = true)
    by reflexivity.
  destruct (login_records_last_login _ _ env0 db0 alice_row Hv Hrow Hpw)
    as (r & db' & Hrun & _ & Hlast & Hlen & _).
  exists r, db'. split; [exact Hrun|]. split; [exact Hlast | exact Hlen].
Defined.


Lemma demo_db1_unique : unique_accounts db1.
Proof.
  unfold unique_accounts. apply (bool_decide_unpack _). vm_compute. exact I.
Qed.

(** A registration in the store of [alice] and [bob] leaves it with
    distinct ids, emails and user names. *)
Lemma service_keeps_accounts_unique_witness :
  unique_accounts db1 /\
  unique_accounts
    (snd (register (registration "c@x.com" "carol" (JBool true))
            {| now := 1000000; salt := "salt0"; cuid := "u3" |} db1)).
Proof.
  split; [exact demo_db1_unique|].
  exact (proj1 (service_keeps_accounts_unique "u1"
                  (registration "c@x.com" "carol" (JBool true))
                  {| now := 1000000; salt := "salt0"; cuid := "u3" |} db1
                  demo_db1_unique)).
Defined.

(** With the token of [alice], neither route changes the row of [bob]. *)
Lemma routes_touch_own_account_only_witness :
  users (snd (put_profile (object [("bio", JStr "hello")]) env0
                (with_header "Bearer tagged.alice.token") 1000000 db1)) !! 1%nat
    = Some bob_row /\
  users (snd (put_password (password_change "secret1" "secret2") env0
                (with_header "Bearer tagged.alice.token") 1000000 db1)) !! 1%nat
    = Some bob_row.
Proof.
  assert (Hrow : users db1 !! 1%nat = Some bob_row) by reflexivity.
  assert (Hother : forall c,
            presents (with_header "Bearer tagged.alice.token") 1000000 c ->
            User.id bob_row <> Payload.userId (payload c)).
  { intros c (t & Ht & _ & Hopen & _).
    assert (Hbearer : bearerToken (authorization (with_header "Bearer tagged.alice.token"))
                      = Some "tagged.alice.token") by reflexivity.
    rewrite Hbearer in Ht. injection Ht as <-.
    assert (Hdemo : jws_open "tagged.alice.token" = Some (tagged_claims, JWT_SECRET))
      by reflexivity.
    rewrite Hdemo in Hopen. injection Hopen as <-. discriminate. }
  split.
  - exact (proj1 (routes_touch_own_account_only (object [("bio", JStr "hello")]) env0
                    _ 1000000 db1 1 bob_row Hrow Hother)).
  - exact (proj2 (routes_touch_own_account_only (password_change "secret1" "secret2") env0
                    _ 1000000 db1 1 bob_row Hrow Hother)).
Defined.

(** The title "Hello, World!" with two articles in its way gets the
    counter 2, and is kept as it is for the article that holds it. *)
Lemma generateUniqueSlug_returns_first_free_witness :
  generateUniqueSlug 3 (units "Hello, World!") None 1000000 shelf
    = Some (units "hello-world-2") /\
  generateUniqueSlug 3 (units "Hello, World!") (Some "a1") 1000000 shelf
    = Some (units "hello-world").
Proof.
  assert (Hfuel : (length shelf < 3)%nat) by (cbn; lia).
  destruct (generateUniqueSlug_returns_first_free 3 (units "Hello, World!") None
              1000000 shelf Hfuel) as (k & Hk & Hrun & _ & _).
  destruct (generateUniqueSlug_returns_first_free 3 (units "Hello, World!") (Some "a1")
              1000000 shelf Hfuel) as (k' & Hk' & Hrun' & _ & _).
  split.
  - rewrite Hrun. vm_compute in Hrun.
    destruct k as [|[|[|k]]]; vm_compute; vm_compute in Hrun; congruence || (cbn in Hk; lia).
  - rewrite Hrun'. vm_compute in Hrun'.
    destruct k' as [|[|[|k']]]; vm_compute; vm_compute in Hrun'; congruence || (cbn in Hk'; lia).
Defined.

(** The slug of "Hello, World!", and the one of a title of ideographs
    only, which is replaced by [article-] and the time. *)
Lemma title_slug_shape_witness :
  title_slug (units "Hello, World!") 1000000 = units "hello-world" /\
  title_slug [20320; 22909]%N 1000000 = units "article-1000000" /\
  (forall l, title_slug (units "Hello, World!") 1000000 <> dash :: l) /\
  (forall l, title_slug [20320; 22909]%N 1000000 <> l ++ [dash])%list.
Proof.
  assert (Hnow : 0 <= 1000000) by lia.
  split; [vm_compute; reflexivity|]. split; [vm_compute; reflexivity|].
  split.
  - exact (proj1 (proj2 (proj2 (title_slug_shape (units "Hello, World!") 1000000 Hnow)))).
  - exact (proj1 (proj2 (proj2 (proj2 (title_slug_shape [20320; 22909]%N 1000000 Hnow))))).
Defined.
End MoreRuns.
